(** * CacheORM: a shallow embedding of [src/ORM.py] and [src/ORMUtils.py]

    The ORM keeps, per cache definition, one collection (a Python list of
    dicts) serialised as [str(collection).encode()] under the cache key in
    Redis, and a "reverse index" under ["_idx_" + key].  Reading a blob back
    goes through [bytes.decode('utf-8')] and [ast.literal_eval].

    The model:
    - Python values are [pyval]; Python text is a list of code points and
      Python bytes a list of byte values, both as [list Z];
    - [py_repr] is [str]/[repr] on those values, [literal_eval] the parser of
      [ast.literal_eval] on the literal forms of those values;
    - the parts of the platform that are tables or C libraries
      ([str.isprintable], zlib) are the fields of a [platform] record;
    - Redis is a finite map from key strings to byte strings, and every
      method of [CacheORM], [DefinitionIndex] and [ORMUtils] is a state and
      exception monad over it. *)

From Stdlib Require Import ZArith Lia Bool Ascii String List.
From stdpp Require Import base gmap strings.
Import ListNotations.

Set Warnings "-register-all".
Open Scope Z_scope.

(* ------------------------------------------------------------------ *)
(** ** Python values *)

Record datetime := mkDatetime {
  dt_year : Z; dt_month : Z; dt_day : Z;
  dt_hour : Z; dt_minute : Z; dt_second : Z; dt_microsecond : Z }.

(** A Python float.  A finite float is kept as the decimal number that its
    [repr] prints, [(-1)^neg * m * 10^e] with [m] not a multiple of 10 (or
    [m = 0], [e = 0]); Python guarantees [float(repr(x)) == x], so this
    decimal identifies the float.  Infinities and NaN are separate. *)
Inductive pyfloat :=
| FFin (neg : bool) (m : Z) (e : Z)
| FInf (neg : bool)
| FNaN.

Inductive pyval :=
| PNone
| PBool (b : bool)
| PInt (z : Z)
| PFloat (f : pyfloat)
| PStr (s : list Z)
| PList (l : list pyval)
| PTuple (l : list pyval)
| PDict (d : list (pyval * pyval))
| PDatetime (d : datetime).

(** ASCII text literals of the Python source, as code points. *)
Definition cps (s : string) : list Z :=
  map (fun a => Z.of_nat (nat_of_ascii a)) (list_ascii_of_string s).

(** Truth value testing ([if not x]). *)
Definition truthy (v : pyval) : bool :=
  match v with
  | PNone => false
  | PBool b => b
  | PInt z => negb (z =? 0)
  | PFloat (FFin _ m _) => negb (m =? 0)
  | PFloat _ => true
  | PStr s => negb (length s =? 0)%nat
  | PList l | PTuple l => negb (length l =? 0)%nat
  | PDict d => negb (length d =? 0)%nat
  | PDatetime _ => true
  end.

(* ------------------------------------------------------------------ *)
(** ** Python equality [==] on the values of the model *)

Definition num_of (v : pyval) : option Z :=
  match v with
  | PBool b => Some (if b then 1 else 0)
  | PInt z => Some z
  | _ => None
  end.

Definition float_eq (f g : pyfloat) : bool :=
  match f, g with
  | FFin n1 m1 e1, FFin n2 m2 e2 =>
      ((m1 =? 0) && (m2 =? 0)) || (Bool.eqb n1 n2 && (m1 =? m2) && (e1 =? e2))
  | FInf n1, FInf n2 => Bool.eqb n1 n2
  | _, _ => false
  end.

Definition float_eq_int (f : pyfloat) (z : Z) : bool :=
  match f with
  | FFin neg m e =>
      if m =? 0 then z =? 0
      else (0 <=? e) && ((if neg then - (m * 10 ^ e) else m * 10 ^ e) =? z)
  | _ => false
  end.

Definition datetime_eqb (x y : datetime) : bool :=
  (dt_year x =? dt_year y) && (dt_month x =? dt_month y) && (dt_day x =? dt_day y)
  && (dt_hour x =? dt_hour y) && (dt_minute x =? dt_minute y)
  && (dt_second x =? dt_second y) && (dt_microsecond x =? dt_microsecond y).

Fixpoint py_eq (a b : pyval) {struct a} : bool :=
  match a, b with
  | PNone, PNone => true
  | (PBool _ | PInt _), (PBool _ | PInt _) =>
      match num_of a, num_of b with Some x, Some y => x =? y | _, _ => false end
  | PFloat f, PFloat g => float_eq f g
  | PFloat f, (PBool _ | PInt _) =>
      match num_of b with Some y => float_eq_int f y | None => false end
  | (PBool _ | PInt _), PFloat g =>
      match num_of a with Some x => float_eq_int g x | None => false end
  | PStr s, PStr t => bool_decide (s = t)
  | PList l1, PList l2 | PTuple l1, PTuple l2 =>
      (fix eq_list (xs ys : list pyval) : bool :=
         match xs, ys with
         | [], [] => true
         | x :: xs', y :: ys' => py_eq x y && eq_list xs' ys'
         | _, _ => false
         end) l1 l2
  | PDict d1, PDict d2 =>
      (length d1 =? length d2)%nat
      && forallb (fun '(k, v) =>
                    existsb (fun '(k', v') => py_eq k k' && py_eq v v') d2) d1
  | PDatetime x, PDatetime y => datetime_eqb x y
  | _, _ => false
  end.

(** Only hashable values can be dict keys. *)
Fixpoint hashable (v : pyval) : bool :=
  match v with
  | PList _ | PDict _ => false
  | PTuple l => forallb hashable l
  | _ => true
  end.

(** [d[k] = v] on a dict: an equal key keeps its place and takes the value. *)
Fixpoint dict_set (d : list (pyval * pyval)) (k v : pyval) : list (pyval * pyval) :=
  match d with
  | [] => [(k, v)]
  | (k', v') :: r => if py_eq k' k then (k', v) :: r else (k', v') :: dict_set r k v
  end.

Fixpoint dict_get (d : list (pyval * pyval)) (k : pyval) : option pyval :=
  match d with
  | [] => None
  | (k', v') :: r => if py_eq k' k then Some v' else dict_get r k
  end.

(* ------------------------------------------------------------------ *)
(** ** The platform: [str.isprintable] and zlib *)

(** [py_isprintable] is the Unicode database's printable test used by
    [repr] ([Py_UNICODE_ISPRINTABLE]); [zlib_compress] and
    [zlib_decompress] are [zlib.compress] and [zlib.decompress], the latter
    failing with [zlib.error] ([None]). *)
Record platform := mkPlatform {
  py_isprintable : Z -> bool;
  zlib_compress : list Z -> list Z;
  zlib_decompress : list Z -> option (list Z) }.

(* ------------------------------------------------------------------ *)
(** ** [repr] *)

(** Decimal digits of a non-negative integer, most significant first
    ([0] has the single digit [0]). *)
Fixpoint digits_fuel (fuel : nat) (n : Z) : list Z :=
  match fuel with
  | O => []
  | S f => if n <? 10 then [n] else digits_fuel f (n / 10) ++ [n mod 10]
  end.

Definition digits (n : Z) : list Z := digits_fuel (S (Z.to_nat (Z.log2 n))) n.

Definition digit_chars (ds : list Z) : list Z := map (fun d => 48 + d) ds.

(** [str(int)] *)
Definition repr_int (z : Z) : list Z :=
  if z <? 0 then 45 :: digit_chars (digits (- z)) else digit_chars (digits z).

(** [repr(float)]: Python's ["r"] format ([format_float_short]): the
    shortest digits [ds] with the decimal point at [decpt]; exponent
    notation when [decpt <= -4] or [decpt > 16], the exponent written
    ["e%+.02d"]; fixed notation otherwise, with [".0"] for integral values. *)
Definition repr_exponent (x : Z) : list Z :=
  let ds := digits (Z.abs x) in
  (if x <? 0 then 45 else 43) :: digit_chars (if (length ds <? 2)%nat then 0 :: ds else ds).

Definition repr_float (f : pyfloat) : list Z :=
  match f with
  | FInf neg => if neg then cps "-inf" else cps "inf"
  | FNaN => cps "nan"
  | FFin neg m e =>
      let ds := digits m in
      let n := Z.of_nat (length ds) in
      let decpt := n + e in
      let body :=
        if (decpt <=? -4) || (16 <? decpt) then
          match ds with
          | d0 :: rest =>
              digit_chars [d0]
              ++ (match rest with [] => [] | _ => 46 :: digit_chars rest end)
              ++ 101 :: repr_exponent (decpt - 1)
          | [] => []
          end
        else if decpt <=? 0 then
          48 :: 46 :: repeat 48 (Z.to_nat (- decpt)) ++ digit_chars ds
        else if n <=? decpt then
          digit_chars ds ++ repeat 48 (Z.to_nat (decpt - n)) ++ [46; 48]
        else
          digit_chars (firstn (Z.to_nat decpt) ds) ++ 46
            :: digit_chars (skipn (Z.to_nat decpt) ds) in
      if neg then 45 :: body else body
  end.

Section Repr.
Variable isprintable : Z -> bool.

Definition hexdig (n : Z) : Z := if n <? 10 then 48 + n else 87 + n.

(** The [k] lowest hex digits of [n], most significant first, lower case. *)
Fixpoint hex_fixed (k : nat) (n : Z) : list Z :=
  match k with
  | O => []
  | S k' => hexdig ((n / 16 ^ Z.of_nat k') mod 16) :: hex_fixed k' n
  end.

(** [unicode_repr]: the quote is the single quote (39) unless the text has a
    single quote and no double quote (34). *)
Definition repr_quote (s : list Z) : Z :=
  if existsb (fun c => c =? 39) s && negb (existsb (fun c => c =? 34) s) then 34 else 39.

Definition repr_char (q c : Z) : list Z :=
  if (c =? q) || (c =? 92) then [92; c]
  else if c =? 9 then [92; 116]
  else if c =? 10 then [92; 110]
  else if c =? 13 then [92; 114]
  else if (c <? 32) || (c =? 127) then 92 :: 120 :: hex_fixed 2 c
  else if c <? 127 then [c]
  else if isprintable c then [c]
  else if c <=? 255 then 92 :: 120 :: hex_fixed 2 c
  else if c <=? 65535 then 92 :: 117 :: hex_fixed 4 c
  else 92 :: 85 :: hex_fixed 8 c.

Definition repr_str (s : list Z) : list Z :=
  let q := repr_quote s in q :: flat_map (repr_char q) s ++ [q].

(** [", ".join(...)] *)
Fixpoint join_comma (l : list (list Z)) : list Z :=
  match l with
  | [] => []
  | [x] => x
  | x :: r => x ++ [44; 32] ++ join_comma r
  end.

(** [datetime.__repr__]: trailing zero microsecond, then second, dropped. *)
Definition repr_datetime (d : datetime) : list Z :=
  let l := [dt_year d; dt_month d; dt_day d; dt_hour d; dt_minute d;
            dt_second d; dt_microsecond d] in
  let l := if dt_microsecond d =? 0 then removelast l else l in
  let l := if (dt_microsecond d =? 0) && (dt_second d =? 0) then removelast l else l in
  cps "datetime.datetime(" ++ join_comma (map repr_int l) ++ [41].

Fixpoint py_repr (v : pyval) : list Z :=
  match v with
  | PNone => cps "None"
  | PBool b => if b then cps "True" else cps "False"
  | PInt z => repr_int z
  | PFloat f => repr_float f
  | PStr s => repr_str s
  | PList l => 91 :: join_comma (map py_repr l) ++ [93]
  | PTuple l =>
      match l with
      | [x] => 40 :: py_repr x ++ [44; 41]
      | _ => 40 :: join_comma (map py_repr l) ++ [41]
      end
  | PDict d =>
      123 :: join_comma (map (fun '(k, x) => py_repr k ++ [58; 32] ++ py_repr x) d)
      ++ [125]
  | PDatetime d => repr_datetime d
  end.

End Repr.

Definition ascii_printable (c : Z) : bool := (32 <=? c) && (c <? 127).

(* ------------------------------------------------------------------ *)
(** ** [ast.literal_eval] on the literal forms of the model's values

    Covered: [None], [True], [False], decimal integers and floats (with an
    optional unary minus), single- and double-quoted strings with their
    escapes ([\N{...}] excepted: it needs the Unicode name table), lists,
    tuples and dicts.  A name other than the three constants ([inf], [nan],
    [datetime], ...) and a call are malformed nodes (ValueError), like any
    text outside these forms; both errors are [None] here. *)

Definition is_ws (c : Z) : bool :=
  (c =? 32) || (c =? 9) || (c =? 10) || (c =? 13) || (c =? 12).

Fixpoint skip_ws (s : list Z) : list Z :=
  match s with
  | c :: r => if is_ws c then skip_ws r else s
  | [] => []
  end.

Definition is_digit (c : Z) : bool := (48 <=? c) && (c <=? 57).

Definition is_ident_char (c : Z) : bool :=
  is_digit c || ((65 <=? c) && (c <=? 90)) || ((97 <=? c) && (c <=? 122)) || (c =? 95).

Fixpoint span (p : Z -> bool) (s : list Z) : list Z * list Z :=
  match s with
  | c :: r => if p c then let '(a, b) := span p r in (c :: a, b) else ([], s)
  | [] => ([], [])
  end.

(** Value of a list of decimal digits. *)
Definition dval (ds : list Z) : Z := fold_left (fun acc d => acc * 10 + d) ds 0.

Definition digit_vals (cs : list Z) : list Z := map (fun c => c - 48) cs.

(** Strip factors of ten from a decimal mantissa ([k] bounds the steps). *)
Fixpoint strip_tens (k : nat) (m e : Z) : Z * Z :=
  match k with
  | O => (m, e)
  | S k' => if m mod 10 =? 0 then strip_tens k' (m / 10) (e + 1) else (m, e)
  end.

Definition mk_float (m e : Z) (k : nat) : pyfloat :=
  if m =? 0 then FFin false 0 0 else let '(m', e') := strip_tens k m e in FFin false m' e'.

(** The exponent after [e] or [E]: optional sign, then digits. *)
Definition parse_exponent (s : list Z) : option (Z * list Z) :=
  let '(sg, s1) :=
    match s with
    | c :: r => if c =? 43 then (1, r) else if c =? 45 then (-1, r) else (1, s)
    | [] => (1, s)
    end in
  let '(ds, s2) := span is_digit s1 in
  match ds with
  | [] => None
  | _ => Some (sg * dval (digit_vals ds), s2)
  end.

Definition parse_exp_part (s : list Z) : option (option Z * list Z) :=
  match s with
  | c :: r =>
      if (c =? 101) || (c =? 69) then
        match parse_exponent r with Some (x, r') => Some (Some x, r') | None => None end
      else Some (None, s)
  | [] => Some (None, [])
  end.

(** A number token: digits, an optional fraction, an optional exponent. *)
Definition parse_number (s : list Z) : option (pyval * list Z) :=
  let '(ip, r1) := span is_digit s in
  match ip with
  | [] => None
  | _ =>
      let '(has_dot, fp, r3) :=
        match r1 with
        | c :: r2 => if c =? 46 then let '(fp, r3) := span is_digit r2 in (true, fp, r3)
                     else (false, [], r1)
        | [] => (false, [], r1)
        end in
      match parse_exp_part r3 with
      | None => None
      | Some (ex, r4) =>
          let ds := digit_vals (ip ++ fp) in
          match has_dot, ex with
          | false, None => Some (PInt (dval ds), r4)
          | _, _ =>
              let x := match ex with Some x => x | None => 0 end in
              Some (PFloat (mk_float (dval ds) (x - Z.of_nat (length fp)) (length ds)), r4)
          end
      end
  end.

(** Unary minus, allowed by [literal_eval] on a number only. *)
Definition negate (v : pyval) : option pyval :=
  match v with
  | PInt z => Some (PInt (- z))
  | PFloat (FFin n m e) => Some (PFloat (FFin (negb n) m e))
  | _ => None
  end.

(** String literal bodies: a lexer over the characters after the quote. *)
Inductive lexst := LNormal | LEsc | LHex (k : nat) (v : Z).

Definition hexval (c : Z) : option Z :=
  if is_digit c then Some (c - 48)
  else if (97 <=? c) && (c <=? 102) then Some (c - 87)
  else if (65 <=? c) && (c <=? 70) then Some (c - 55)
  else None.

Definition is_oct (c : Z) : bool := (48 <=? c) && (c <=? 55).

Definition simple_escape (c : Z) : option Z :=
  if c =? 92 then Some 92 else if c =? 39 then Some 39 else if c =? 34 then Some 34
  else if c =? 97 then Some 7 else if c =? 98 then Some 8 else if c =? 102 then Some 12
  else if c =? 110 then Some 10 else if c =? 114 then Some 13 else if c =? 116 then Some 9
  else if c =? 118 then Some 11 else None.

Fixpoint lex_str (q : Z) (st : lexst) (s : list Z) (acc : list Z)
  : option (list Z * list Z) :=
  match s with
  | [] => None
  | c :: r =>
      match st with
      | LNormal =>
          if c =? q then Some (rev acc, r)
          else if c =? 92 then lex_str q LEsc r acc
          else if c =? 10 then None
          else lex_str q LNormal r (c :: acc)
      | LEsc =>
          if c =? 120 then lex_str q (LHex 2 0) r acc
          else if c =? 117 then lex_str q (LHex 4 0) r acc
          else if c =? 85 then lex_str q (LHex 8 0) r acc
          else if c =? 10 then lex_str q LNormal r acc
          else if is_oct c then
            match r with
            | c2 :: r2 =>
                if is_oct c2 then
                  match r2 with
                  | c3 :: r3 =>
                      if is_oct c3 then
                        lex_str q LNormal r3 (((c - 48) * 64 + (c2 - 48) * 8 + (c3 - 48)) :: acc)
                      else lex_str q LNormal r2 (((c - 48) * 8 + (c2 - 48)) :: acc)
                  | [] => None
                  end
                else lex_str q LNormal r ((c - 48) :: acc)
            | [] => None
            end
          else match simple_escape c with
               | Some x => lex_str q LNormal r (x :: acc)
               | None => if c =? 78 then None else lex_str q LNormal r (c :: 92 :: acc)
               end
      | LHex k v =>
          match hexval c with
          | None => None
          | Some h =>
              let v' := v * 16 + h in
              match k with
              | S (S k') => lex_str q (LHex (S k') v') r acc
              | _ => if v' <=? 1114111 then lex_str q LNormal r (v' :: acc) else None
              end
          end
      end
  end.

(** [dict(zip(keys, values))], after the keys were checked hashable. *)
Definition build_dict (kvs : list (pyval * pyval)) : option pyval :=
  if forallb (fun kv => hashable kv.1) kvs
  then Some (PDict (fold_left (fun d kv => dict_set d kv.1 kv.2) kvs []))
  else None.

Fixpoint parse_value (fuel : nat) (s : list Z) {struct fuel} : option (pyval * list Z) :=
  match fuel with
  | O => None
  | S f =>
      match skip_ws s with
      | [] => None
      | c :: r =>
          if c =? 91 then
            match parse_seq f 93 r with Some (vs, r') => Some (PList vs, r') | None => None end
          else if c =? 40 then
            match skip_ws r with
            | [] => None
            | c' :: r' =>
                if c' =? 41 then Some (PTuple [], r') else
                match parse_value f (c' :: r') with
                | None => None
                | Some (v, r1) =>
                    match skip_ws r1 with
                    | [] => None
                    | c1 :: r2 =>
                        if c1 =? 41 then Some (v, r2)
                        else if c1 =? 44 then
                          match parse_seq f 41 r2 with
                          | Some (vs, r3) => Some (PTuple (v :: vs), r3)
                          | None => None
                          end
                        else None
                    end
                end
            end
          else if c =? 123 then
            match parse_entries f r with
            | Some (kvs, r') => match build_dict kvs with Some d => Some (d, r') | None => None end
            | None => None
            end
          else if (c =? 39) || (c =? 34) then
            match lex_str c LNormal r [] with Some (t, r') => Some (PStr t, r') | None => None end
          else if c =? 45 then
            match parse_number (skip_ws r) with
            | Some (v, r') => match negate v with Some v' => Some (v', r') | None => None end
            | None => None
            end
          else if is_digit c then parse_number (c :: r)
          else if is_ident_char c then
            let '(id, r') := span is_ident_char (c :: r) in
            if bool_decide (id = cps "True") then Some (PBool true, r')
            else if bool_decide (id = cps "False") then Some (PBool false, r')
            else if bool_decide (id = cps "None") then Some (PNone, r')
            else None
          else None
      end
  end
with parse_seq (fuel : nat) (close : Z) (s : list Z) {struct fuel}
  : option (list pyval * list Z) :=
  match fuel with
  | O => None
  | S f =>
      match skip_ws s with
      | [] => None
      | c :: r =>
          if c =? close then Some ([], r) else
          match parse_value f (c :: r) with
          | None => None
          | Some (v, r1) =>
              match skip_ws r1 with
              | [] => None
              | c1 :: r2 =>
                  if c1 =? close then Some ([v], r2)
                  else if c1 =? 44 then
                    match parse_seq f close r2 with
                    | Some (vs, r3) => Some (v :: vs, r3)
                    | None => None
                    end
                  else None
              end
          end
      end
  end
with parse_entries (fuel : nat) (s : list Z) {struct fuel}
  : option (list (pyval * pyval) * list Z) :=
  match fuel with
  | O => None
  | S f =>
      match skip_ws s with
      | [] => None
      | c :: r =>
          if c =? 125 then Some ([], r) else
          match parse_value f (c :: r) with
          | None => None
          | Some (k, r1) =>
              match skip_ws r1 with
              | [] => None
              | c1 :: r2 =>
                  if c1 =? 58 then
                    match parse_value f r2 with
                    | None => None
                    | Some (v, r3) =>
                        match skip_ws r3 with
                        | [] => None
                        | c3 :: r4 =>
                            if c3 =? 125 then Some ([(k, v)], r4)
                            else if c3 =? 44 then
                              match parse_entries f r4 with
                              | Some (kvs, r5) => Some ((k, v) :: kvs, r5)
                              | None => None
                              end
                            else None
                        end
                    end
                  else None
              end
          end
      end
  end.

(** [ast.literal_eval(text)]: one value, then only white space. *)
Definition literal_eval (s : list Z) : option pyval :=
  match parse_value (S (2 * length s)) s with
  | Some (v, r) => if forallb is_ws r then Some v else None
  | None => None
  end.

(* ------------------------------------------------------------------ *)
(** ** UTF-8: [str.encode()] and [bytes.decode('utf-8')] (strict) *)

Definition utf8_encode_cp (c : Z) : option (list Z) :=
  if c <? 0 then None
  else if c <? 128 then Some [c]
  else if c <? 2048 then Some [192 + c / 64; 128 + c mod 64]
  else if c <? 65536 then
    if (55296 <=? c) && (c <=? 57343) then None
    else Some [224 + c / 4096; 128 + (c / 64) mod 64; 128 + c mod 64]
  else if c <? 1114112 then
    Some [240 + c / 262144; 128 + (c / 4096) mod 64; 128 + (c / 64) mod 64; 128 + c mod 64]
  else None.

Fixpoint utf8_encode (s : list Z) : option (list Z) :=
  match s with
  | [] => Some []
  | c :: r =>
      match utf8_encode_cp c, utf8_encode r with
      | Some b, Some bs => Some (b ++ bs)
      | _, _ => None
      end
  end.

Definition is_cont (b : Z) : bool := (128 <=? b) && (b <? 192).

Fixpoint utf8_decode (b : list Z) : option (list Z) :=
  match b with
  | [] => Some []
  | b0 :: r =>
      if (0 <=? b0) && (b0 <? 128) then option_map (cons b0) (utf8_decode r)
      else if (192 <=? b0) && (b0 <? 224) then
        match r with
        | b1 :: r1 =>
            let c := (b0 - 192) * 64 + (b1 - 128) in
            if is_cont b1 && (128 <=? c) then option_map (cons c) (utf8_decode r1) else None
        | [] => None
        end
      else if (224 <=? b0) && (b0 <? 240) then
        match r with
        | b1 :: b2 :: r2 =>
            let c := (b0 - 224) * 4096 + (b1 - 128) * 64 + (b2 - 128) in
            if is_cont b1 && is_cont b2 && (2048 <=? c)
               && negb ((55296 <=? c) && (c <=? 57343))
            then option_map (cons c) (utf8_decode r2) else None
        | _ => None
        end
      else if (240 <=? b0) && (b0 <? 248) then
        match r with
        | b1 :: b2 :: b3 :: r3 =>
            let c := (b0 - 240) * 262144 + (b1 - 128) * 4096 + (b2 - 128) * 64 + (b3 - 128) in
            if is_cont b1 && is_cont b2 && is_cont b3 && (65536 <=? c) && (c <=? 1114111)
            then option_map (cons c) (utf8_decode r3) else None
        | _ => None
        end
      else None
  end.

(* ------------------------------------------------------------------ *)
(** ** Exceptions and results *)

(** The [Exception]s the ORM raises (named after their messages) and the
    built-in exceptions its code can raise. *)
Inductive exc :=
| ExcNotCacheDefinition              (* __init__: "All arguments must CacheDefinition classes" *)
| ExcDuplicateKey                    (* __init__: "Multiple definitions with same key not allowed" *)
| ExcUnknownCacheKey                 (* push: "Unknown cache_key" *)
| ExcUnknownKey (k : list Z)         (* push: "Unknown key `{}` passed" *)
| ExcTypeMismatch (k : list Z)       (* push: "Type mismatch with key `{}`" *)
| ExcIndexCreation                   (* push: "Error in creating index for definition" *)
| ExcDefinitionUpdate                (* push: "Definition update failure" *)
| ExcAllUnknownKey (k : string)      (* all: "Unknown key `{}`" *)
| ExcNotDefined (k : string)         (* search: "CacheDefinition with key {} has not been defined" *)
| ExcCacheMissing (k : string)       (* search: "Cache with key {} does not exist" *)
| ExcIndexNotLoaded                  (* search: "Index state is not loaded" *)
| ExcItemsNotList                    (* update: "cache_items must be list" *)
| ExcUnknownItemKeys                 (* update: "Unknown keys in cache_item, cannot cache" *)
| AttributeError
| TypeError
| KeyError
| ValueError
| IndexError
| LiteralEvalError                   (* ValueError or SyntaxError of literal_eval *)
| UnicodeEncodeError
| UnicodeDecodeError
| ZlibError.

Inductive res (A : Type) := Ok (a : A) | Err (e : exc).
Arguments Ok {A} a.
Arguments Err {A} e.

Definition rbind {A B} (m : res A) (k : A -> res B) : res B :=
  match m with Ok a => k a | Err e => Err e end.

Notation "x <- m ;; k" := (rbind m (fun x => k))
  (at level 100, m at next level, right associativity).

(* ------------------------------------------------------------------ *)
(** ** [ORMUtils.serialize_dict] and [ORMUtils.deserialize_dict] *)

Section Codec.
Variable P : platform.

Definition py_str (d : pyval) : list Z := py_repr (py_isprintable P) d.

(** [string = str(d); string_bin = string.encode();
     if compress: string_bin = zlib.compress(string_bin)] *)
Definition serialize_dict (d : pyval) (compress : bool) : res (list Z) :=
  match utf8_encode (py_str d) with
  | None => Err UnicodeEncodeError
  | Some string_bin => Ok (if compress then zlib_compress P string_bin else string_bin)
  end.

(** [if decompress: serialized_dict = zlib.decompress(serialized_dict);
     d = serialized_dict.decode('utf-8'); return ast.literal_eval(d)] *)
Definition deserialize_dict (serialized_dict : list Z) (decompress : bool) : res pyval :=
  b <- (if decompress then
          match zlib_decompress P serialized_dict with Some b => Ok b | None => Err ZlibError end
        else Ok serialized_dict) ;;
  d <- (match utf8_decode b with Some d => Ok d | None => Err UnicodeDecodeError end) ;;
  match literal_eval d with Some v => Ok v | None => Err LiteralEvalError end.

End Codec.

(* ------------------------------------------------------------------ *)
(** ** Python operations used by the ORM *)

Fixpoint rmap {A B} (f : A -> res B) (l : list A) : res (list B) :=
  match l with
  | [] => Ok []
  | x :: r => y <- f x ;; ys <- rmap f r ;; Ok (y :: ys)
  end.

(** [x.keys()] *)
Definition py_keys (v : pyval) : res (list pyval) :=
  match v with PDict d => Ok (map fst d) | _ => Err AttributeError end.

(** [x.append(y)] on a list; any other object has no [append]. *)
Definition py_append (container x : pyval) : res pyval :=
  match container with PList l => Ok (PList (l ++ [x])) | _ => Err AttributeError end.

Definition py_index_of (n : Z) (len : nat) : option nat :=
  let i := if n <? 0 then n + Z.of_nat len else n in
  if (0 <=? i) && (i <? Z.of_nat len) then Some (Z.to_nat i) else None.

(** [c[k]] *)
Definition py_getitem (c k : pyval) : res pyval :=
  match c with
  | PDict d =>
      if hashable k then match dict_get d k with Some v => Ok v | None => Err KeyError end
      else Err TypeError
  | PList l | PTuple l =>
      match num_of k with
      | Some n => match py_index_of n (length l) with
                  | Some i => match nth_error l i with Some v => Ok v | None => Err IndexError end
                  | None => Err IndexError
                  end
      | None => Err TypeError
      end
  | PStr s =>
      match num_of k with
      | Some n => match py_index_of n (length s) with
                  | Some i => match nth_error s i with Some c => Ok (PStr [c]) | None => Err IndexError end
                  | None => Err IndexError
                  end
      | None => Err TypeError
      end
  | _ => Err TypeError
  end.

(** [c[k] = v] on a dict. *)
Definition py_setitem (c k v : pyval) : res pyval :=
  match c with
  | PDict d => if hashable k then Ok (PDict (dict_set d k v)) else Err TypeError
  | _ => Err TypeError
  end.

Fixpoint is_prefix (t s : list Z) : bool :=
  match t, s with
  | [], _ => true
  | a :: t', b :: s' => (a =? b) && is_prefix t' s'
  | _ :: _, [] => false
  end.

Fixpoint is_infix (t s : list Z) : bool :=
  match s with
  | [] => is_prefix t []
  | _ :: s' => is_prefix t s || is_infix t s'
  end.

(** [x in c] *)
Definition py_contains (c x : pyval) : res bool :=
  match c with
  | PList l | PTuple l => Ok (existsb (fun e => py_eq e x) l)
  | PDict d => if hashable x then Ok (match dict_get d x with Some _ => true | None => false end) else Err TypeError
  | PStr s => match x with PStr t => Ok (is_infix t s) | _ => Err TypeError end
  | _ => Err TypeError
  end.

(** [iter(c)] *)
Definition py_iter (c : pyval) : res (list pyval) :=
  match c with
  | PList l | PTuple l => Ok l
  | PDict d => Ok (map fst d)
  | PStr s => Ok (map (fun ch => PStr [ch]) s)
  | _ => Err TypeError
  end.

(** [enumerate(l)]: pairs [(index, item)]. *)
Definition enumerate (l : list pyval) : list (pyval * pyval) :=
  combine (map (fun i => PInt (Z.of_nat i)) (seq 0 (length l))) l.

(** [l.index(x)] *)
Fixpoint list_index (l : list pyval) (x : pyval) : res Z :=
  match l with
  | [] => Err ValueError
  | e :: r => if py_eq e x then Ok 0 else i <- list_index r x ;; Ok (i + 1)
  end.

(** [list(set().union(results))]: the elements must be hashable; equal
    elements are kept once.  A set iterates in hash order, which the
    model does not fix: it keeps first occurrences in order. *)
Fixpoint dedup (l : list pyval) : list pyval :=
  match l with
  | [] => []
  | x :: r => x :: filter (fun y => negb (py_eq x y)) (dedup r)
  end.

Definition set_union (results : list pyval) : res pyval :=
  if forallb hashable results then Ok (PList (dedup results)) else Err TypeError.

(** [datetime.strftime(d, "%Y-%m-%d %H:%M:%S")].  CPython (before 3.12.5) hands [%Y] to
    the C library, and glibc writes the year without leading zeros; the other fields are
    zero-padded to two digits. *)
Definition pad (k : nat) (n : Z) : list Z :=
  let ds := digit_chars (digits n) in repeat 48 (k - length ds) ++ ds.

Definition strftime_canonical (d : datetime) : list Z :=
  pad 1 (dt_year d) ++ [45] ++ pad 2 (dt_month d) ++ [45] ++ pad 2 (dt_day d) ++ [32]
  ++ pad 2 (dt_hour d) ++ [58] ++ pad 2 (dt_minute d) ++ [58] ++ pad 2 (dt_second d).

(** The form [YYYY-MM-DD HH:MM:SS] as the specification words it: every field zero-padded,
    the year to four digits. *)
Definition iso_timestamp (d : datetime) : list Z :=
  pad 4 (dt_year d) ++ [45] ++ pad 2 (dt_month d) ++ [45] ++ pad 2 (dt_day d) ++ [32]
  ++ pad 2 (dt_hour d) ++ [58] ++ pad 2 (dt_minute d) ++ [58] ++ pad 2 (dt_second d).

(* ------------------------------------------------------------------ *)
(** ** Redis and the store monad *)

Abbreviation store := (gmap string (list Z)).

Definition M (A : Type) := store -> store * res A.

Definition ret {A} (a : A) : M A := fun st => (st, Ok a).
Definition raise {A} (e : exc) : M A := fun st => (st, Err e).
Definition lift {A} (r : res A) : M A := fun st => (st, r).
Definition mbind {A B} (m : M A) (k : A -> M B) : M B :=
  fun st => match m st with (st', Ok a) => k a st' | (st', Err e) => (st', Err e) end.

Notation "x <-- m ;; k" := (mbind m (fun x => k))
  (at level 100, m at next level, right associativity).

(** [redis.get(key)]: the bytes, or [None]. *)
Definition redis_get (k : string) : M (option (list Z)) := fun st => (st, Ok (st !! k)).

(** [redis.set(key, value)] *)
Definition redis_set (k : string) (v : list Z) : M unit := fun st => (<[k := v]> st, Ok tt).

(** [if not raw] on the result of [redis.get]: [None] and [b""] are false. *)
Definition bytes_truthy (o : option (list Z)) : bool :=
  match o with Some (_ :: _) => true | _ => false end.

(* ------------------------------------------------------------------ *)
(** ** [CacheDefinition] *)

(** The types of [CacheDefinition.PRIMITIVES]. *)
Inductive ptype := TInt | TStr | TBool | TList | TFloat | TDict | TDatetime.

(** [isinstance(v, t)]; [bool] is a subclass of [int]. *)
Definition isinstance (v : pyval) (t : ptype) : bool :=
  match t, v with
  | TInt, (PInt _ | PBool _) => true
  | TStr, PStr _ => true
  | TBool, PBool _ => true
  | TList, PList _ => true
  | TFloat, PFloat _ => true
  | TDict, PDict _ => true
  | TDatetime, PDatetime _ => true
  | _, _ => false
  end.

(** [cache_key] and [repr], the field-to-type dict built from the keyword
    arguments (distinct names, in order). *)
Record CacheDefinition := mkCacheDefinition {
  cd_key : string;
  cd_repr : list (list Z * ptype) }.

Definition _key (d : CacheDefinition) : string := cd_key d.

(** [{k: None for k in self.repr.keys()}] *)
Definition _dict (d : CacheDefinition) : list (pyval * pyval) :=
  map (fun '(k, _) => (PStr k, PNone)) (cd_repr d).

(* ------------------------------------------------------------------ *)
(** ** [CacheORM] state: the definitions, in order *)

Record CacheORM := mkCacheORM {
  definitions : list CacheDefinition;
  is_compressed : bool }.

Definition def_keys (o : CacheORM) : list string := map _key (definitions o).

(** [self.definitions[self.def_keys.index(cache_key)]], or [None] when
    [cache_key not in self.def_keys]. *)
Definition lookup_def (o : CacheORM) (cache_key : string) : option CacheDefinition :=
  find (fun d => String.eqb (_key d) cache_key) (definitions o).

(** [CacheORM.__init__] on its positional arguments *)
Fixpoint init_defs (args : list CacheDefinition) (acc : list CacheDefinition)
  : res (list CacheDefinition) :=
  match args with
  | [] => Ok acc
  | arg :: r =>
      if existsb (fun d => String.eqb (_key d) (_key arg)) acc then Err ExcDuplicateKey
      else init_defs r (acc ++ [arg])
  end.

Definition CacheORM_init (args : list CacheDefinition) : res CacheORM :=
  defs <- init_defs args [] ;; Ok (mkCacheORM defs false).

Record DefinitionIndex := mkDefinitionIndex {
  di_definition : CacheDefinition;
  di_cache_key : string }.

(** [self.index_key = "_idx_{}".format(cache_key)] *)
Definition index_key (di : DefinitionIndex) : string := "_idx_" ++ di_cache_key di.

(* ------------------------------------------------------------------ *)
(** ** The methods *)

Section ORM.
Variable P : platform.

(** [DefinitionIndex.has_index] *)
Definition has_index (di : DefinitionIndex) : M bool :=
  index <-- redis_get (index_key di) ;; ret (bytes_truthy index).

(** [DefinitionIndex.get] *)
Definition index_get (di : DefinitionIndex) : M pyval :=
  raw_index <-- redis_get (index_key di) ;;
  match raw_index with
  | Some ((_ :: _) as b) => lift (deserialize_dict P b false)
  | _ => ret (PBool false)
  end.

(** The inner loop of [create]:
    [for key in list(cache_item.keys()): value = cache_item[key]; ...] *)
Fixpoint create_scan_keys (cache_item cache_idx : pyval) (keys : list pyval)
    (reverse_index : list (pyval * pyval)) : res (list (pyval * pyval)) :=
  match keys with
  | [] => Ok reverse_index
  | key :: ks =>
      value <- py_getitem cache_item key ;;
      present <- py_contains (PDict reverse_index) value ;;
      reverse_index' <-
        (if present then
           cur <- py_getitem (PDict reverse_index) value ;;
           cur' <- py_append cur (PTuple [key; cache_idx]) ;;
           Ok (dict_set reverse_index value cur')
         else Ok (dict_set reverse_index value (PList [PTuple [key; cache_idx]]))) ;;
      create_scan_keys cache_item cache_idx ks reverse_index'
  end.

(** The outer loop of [create]:
    [for cache_item, cache_idx in enumerate(cache): ...].  [enumerate]
    yields [(index, item)], bound here in the source's order. *)
Fixpoint create_scan (items : list (pyval * pyval)) (reverse_index : list (pyval * pyval))
  : res (list (pyval * pyval)) :=
  match items with
  | [] => Ok reverse_index
  | (cache_item, cache_idx) :: r =>
      keys <- py_keys cache_item ;;
      reverse_index' <- create_scan_keys cache_item cache_idx keys reverse_index ;;
      create_scan r reverse_index'
  end.

(** [DefinitionIndex.create] *)
Definition create (di : DefinitionIndex) : M bool :=
  idx <-- redis_get (index_key di) ;;
  if bytes_truthy idx then ret false else
  cache <-- redis_get (di_cache_key di) ;;
  match cache with
  | Some ((_ :: _) as raw) =>
      cache <-- lift (deserialize_dict P raw false) ;;
      if negb (truthy cache) then ret false else
      items <-- lift (py_iter cache) ;;
      reverse_index <-- lift (create_scan (enumerate items) []) ;;
      serialized_index <-- lift (serialize_dict P (PDict reverse_index) false) ;;
      _ <-- redis_set (index_key di) serialized_index ;;
      ret true
  | _ => ret false
  end.

(** The inner loop of [update]:
    [for key in item_key_list: if key in list(index_state.keys()):
       index_state[key].append(item[key]) else: index_state[key] = item[key]] *)
Fixpoint update_keys (item : pyval) (keys : list pyval) (index_state : pyval) : res pyval :=
  match keys with
  | [] => Ok index_state
  | key :: ks =>
      isk <- py_keys index_state ;;
      index_state' <-
        (if existsb (fun k => py_eq k key) isk then
           cur <- py_getitem index_state key ;;
           v <- py_getitem item key ;;
           cur' <- py_append cur v ;;
           py_setitem index_state key cur'
         else
           v <- py_getitem item key ;;
           py_setitem index_state key v) ;;
      update_keys item ks index_state'
  end.

(** The outer loop of [update], with its check of the item's keys against
    [def_repr.keys()]. *)
Fixpoint update_items (allowed : list pyval) (items : list pyval) (index_state : pyval)
  : res pyval :=
  match items with
  | [] => Ok index_state
  | item :: r =>
      item_key_list <- py_keys item ;;
      let non_allowed :=
        filter (fun x => negb (existsb (fun a => py_eq a x) allowed)) item_key_list in
      if negb (length non_allowed =? 0)%nat then Err ExcUnknownItemKeys else
      index_state' <- update_keys item item_key_list index_state ;;
      update_items allowed r index_state'
  end.

(** [DefinitionIndex.update] *)
Definition update (di : DefinitionIndex) (cache_items : pyval) : M bool :=
  match cache_items with
  | PList items =>
      raw <-- redis_get (index_key di) ;;
      match raw with
      | Some ((_ :: _) as b) =>
          index_state <-- lift (deserialize_dict P b false) ;;
          let allowed := map (fun '(k, _) => PStr k) (cd_repr (di_definition di)) in
          index_state' <-- lift (update_items allowed items index_state) ;;
          serialized_index <-- lift (serialize_dict P index_state' false) ;;
          _ <-- redis_set (index_key di) serialized_index ;;
          ret true
      | _ => ret false
      end
  | _ => raise ExcItemsNotList
  end.

(** [CacheORM._unpack] *)
Definition _unpack (o : CacheORM) (cache_key : string) : M pyval :=
  match lookup_def o cache_key with
  | None => ret (PBool false)
  | Some _ =>
      raw_results <-- redis_get cache_key ;;
      match raw_results with
      | Some ((_ :: _) as b) => lift (deserialize_dict P b (is_compressed o))
      | _ => ret (PBool false)
      end
  end.

(** [CacheORM.get] *)
Definition get (o : CacheORM) (cache_key : string) : M pyval :=
  match lookup_def o cache_key with
  | None => ret (PBool false)
  | Some _ =>
      result_dict <-- _unpack o cache_key ;;
      if negb (truthy result_dict) then ret (PBool false) else
      result_keys <-- lift (py_keys result_dict) ;;
      results <-- lift (rmap (fun k => v <- py_getitem result_dict k ;; Ok (k, v)) result_keys) ;;
      ret (PDict results)
  end.

(** The type-checking loop of [push]:
    [for key in list(kvals.keys()): ... app_dict[key] = kvals[key]] *)
Fixpoint push_fields (def_repr : list (list Z * ptype)) (kvals : list (list Z * pyval))
    (app_dict : list (pyval * pyval)) : res (list (pyval * pyval)) :=
  match kvals with
  | [] => Ok app_dict
  | (key, v) :: r =>
      match find (fun kt => bool_decide (kt.1 = key)) def_repr with
      | None => Err (ExcUnknownKey key)
      | Some (_, t) =>
          if negb (isinstance v t) then Err (ExcTypeMismatch key) else
          let v := match v with PDatetime d => PStr (strftime_canonical d) | _ => v end in
          push_fields def_repr r (dict_set app_dict (PStr key) v)
      end
  end.

(** [CacheORM.push]; the keyword arguments [**kvals] are a list of
    distinct names with their values, in call order. *)
Definition push (o : CacheORM) (cache_key : string) (kvals : list (list Z * pyval)) : M bool :=
  match lookup_def o cache_key with
  | None => raise ExcUnknownCacheKey
  | Some d =>
      cache_state <-- _unpack o cache_key ;;
      let cache_state := if truthy cache_state then cache_state else PList [] in
      app_dict <-- lift (push_fields (cd_repr d) kvals (_dict d)) ;;
      cache_state <-- lift (py_append cache_state (PDict app_dict)) ;;
      serialized_cache_state <-- lift (serialize_dict P cache_state false) ;;
      _ <-- redis_set cache_key serialized_cache_state ;;
      let definition_index := mkDefinitionIndex d cache_key in
      hi <-- has_index definition_index ;;
      if negb hi then
        creation <-- create definition_index ;;
        if negb creation then raise ExcIndexCreation else ret true
      else
        has_updated <-- update definition_index cache_state ;;
        if negb has_updated then raise ExcDefinitionUpdate else ret true
  end.

(** [CacheORM.all] *)
Definition all (o : CacheORM) (cache_key : string) : M pyval :=
  match lookup_def o cache_key with
  | None => raise (ExcAllUnknownKey cache_key)
  | Some _ =>
      definition <-- redis_get cache_key ;;
      match definition with
      | Some ((_ :: _) as b) => lift (deserialize_dict P b false)
      | _ => ret (PDict [])
      end
  end.

(** The loop of [search] over the query's [key=val] pairs. *)
Fixpoint search_pairs (cache_state : pyval) (cache_keys : list pyval) (index_state : pyval)
    (index_state_keys : list pyval) (kwargs : list (list Z * pyval)) (results : list pyval)
  : res (list pyval) :=
  match kwargs with
  | [] => Ok results
  | (k, val) :: r =>
      let key := PStr k in
      results' <-
        (if existsb (fun x => py_eq x key) index_state_keys then
           vals <- py_getitem index_state key ;;
           found <- py_contains vals val ;;
           if found then
             idx <- list_index cache_keys key ;;
             x <- py_getitem cache_state (PInt idx) ;;
             Ok (results ++ [x])
           else Ok results
         else Ok results) ;;
      search_pairs cache_state cache_keys index_state index_state_keys r results'
  end.

(** [CacheORM.search] *)
Definition search (o : CacheORM) (cache_key : string) (kwargs : list (list Z * pyval))
  : M pyval :=
  match lookup_def o cache_key with
  | None => raise (ExcNotDefined cache_key)
  | Some cache_definition =>
      cache_state <-- all o cache_key ;;
      if negb (truthy cache_state) then raise (ExcCacheMissing cache_key) else
      let cache_index := mkDefinitionIndex cache_definition cache_key in
      cache_keys <-- lift (py_keys cache_state) ;;
      index_state <-- index_get cache_index ;;
      index_state_keys <-- lift (py_keys index_state) ;;
      if negb (truthy index_state) then raise ExcIndexNotLoaded else
      results <-- lift (search_pairs cache_state cache_keys index_state index_state_keys kwargs []) ;;
      lift (set_union results)
  end.

End ORM.

(* ------------------------------------------------------------------ *)
(** ** Values that [literal_eval] reads back *)

(** A finite float in its normal form, as [repr] prints it. *)
Definition wf_float (f : pyfloat) : bool :=
  match f with
  | FFin _ m e => (0 <=? m) && (if m =? 0 then e =? 0 else negb (m mod 10 =? 0))
  | _ => false
  end.

Definition wf_cp (c : Z) : bool := (0 <=? c) && (c <=? 1114111).

(** The keys of a dict are pairwise unequal ([==]). *)
Fixpoint keys_distinct (d : list (pyval * pyval)) : bool :=
  match d with
  | [] => true
  | (k, _) :: r => forallb (fun kv => negb (py_eq k kv.1)) r && keys_distinct r
  end.

(** Values built from [None], bools, ints, finite floats, strings, lists,
    tuples and dicts (with hashable, pairwise unequal keys): no infinite or
    NaN float, no [datetime] object. *)
Fixpoint literal_ok (v : pyval) : bool :=
  match v with
  | PNone | PBool _ | PInt _ => true
  | PFloat f => wf_float f
  | PStr s => forallb wf_cp s
  | PList l | PTuple l => forallb literal_ok l
  | PDict d =>
      forallb (fun kv => hashable kv.1 && literal_ok kv.1 && literal_ok kv.2) d
      && keys_distinct d
  | PDatetime _ => false
  end.

(** The fuel [parse_value] needs to read a value back. *)
Fixpoint vsize (v : pyval) : nat :=
  match v with
  | PList l | PTuple l => 2 + list_sum (map (fun x => S (vsize x)) l)
  | PDict d => 2 + list_sum (map (fun kv => S (vsize kv.1 + vsize kv.2)) d)
  | _ => 1
  end.

Section PyvalInd.
Variable Q : pyval -> Prop.
Hypothesis HNone : Q PNone.
Hypothesis HBool : forall b, Q (PBool b).
Hypothesis HInt : forall z, Q (PInt z).
Hypothesis HFloat : forall f, Q (PFloat f).
Hypothesis HStr : forall s, Q (PStr s).
Hypothesis HList : forall l, Forall Q l -> Q (PList l).
Hypothesis HTuple : forall l, Forall Q l -> Q (PTuple l).
Hypothesis HDict : forall d, Forall (fun kv => Q kv.1 /\ Q kv.2) d -> Q (PDict d).
Hypothesis HDatetime : forall d, Q (PDatetime d).

Fixpoint pyval_ind' (v : pyval) : Q v :=
  match v with
  | PNone => HNone
  | PBool b => HBool b
  | PInt z => HInt z
  | PFloat f => HFloat f
  | PStr s => HStr s
  | PList l =>
      HList l ((fix go (l : list pyval) : Forall Q l :=
                  match l with
                  | [] => @List.Forall_nil _ Q
                  | x :: r => @List.Forall_cons _ Q x r (pyval_ind' x) (go r)
                  end) l)
  | PTuple l =>
      HTuple l ((fix go (l : list pyval) : Forall Q l :=
                   match l with
                   | [] => @List.Forall_nil _ Q
                   | x :: r => @List.Forall_cons _ Q x r (pyval_ind' x) (go r)
                   end) l)
  | PDict d =>
      HDict d ((fix go (d : list (pyval * pyval)) : Forall (fun kv => Q kv.1 /\ Q kv.2) d :=
                  match d with
                  | [] => @List.Forall_nil _ _
                  | (k, x) :: r =>
                      @List.Forall_cons _ (fun kv => Q kv.1 /\ Q kv.2) (k, x) r
                        (conj (pyval_ind' k) (pyval_ind' x)) (go r)
                  end) d)
  | PDatetime d => HDatetime d
  end.
End PyvalInd.

(** A character after which a token has ended. *)
Definition delim (c : Z) : bool :=
  (c =? 44) || (c =? 93) || (c =? 41) || (c =? 125) || (c =? 58) || is_ws c.

Definition delimited (rest : list Z) : Prop :=
  match rest with [] => True | c :: _ => delim c = true end.

(** Code points [str.encode()] accepts: no lone surrogate. *)
Definition cp_ok (c : Z) : bool := wf_cp c && negb ((55296 <=? c) && (c <=? 57343)).

(** The first character of a printed value: none of white space and the
    closing brackets. *)
Definition head_ok (c : Z) : bool :=
  negb (is_ws c) && negb (c =? 93) && negb (c =? 41) && negb (c =? 125).

(** [py_repr ip v] followed by a delimited text parses back to [v] with the
    fuel [vsize v]. *)
Definition rt_ok (ip : Z -> bool) (v : pyval) : Prop :=
  forall f rest, (vsize v <= f)%nat -> delimited rest ->
  parse_value f (py_repr ip v ++ rest) = Some (v, rest).

(** [repr] keeps a character as it is only if [str.isprintable] holds of
    it, and CPython's printable test is false on surrogates. *)
Definition no_surrogate_printable (ip : Z -> bool) : Prop :=
  forall c, ip c = true -> (55296 <=? c) && (c <=? 57343) = false.

(** Tactics of the proofs below. *)
Ltac neq_consts :=
  repeat match goal with
         | |- context [?c =? ?k] =>
             is_var c; destruct (Z.eqb_spec c k); [lia|]
         end.

Ltac zcmp :=
  repeat match goal with
         | |- context [?a <=? ?b] =>
             first [rewrite (proj2 (Z.leb_le a b)) by lia | rewrite (proj2 (Z.leb_gt a b)) by lia]
         | |- context [?a <? ?b] =>
             first [rewrite (proj2 (Z.ltb_lt a b)) by lia | rewrite (proj2 (Z.ltb_ge a b)) by lia]
         | |- context [?a =? ?b] =>
             first [rewrite (proj2 (Z.eqb_eq a b)) by lia | rewrite (proj2 (Z.eqb_neq a b)) by lia]
         end.

Ltac zrefl :=
  repeat match goal with
         | H : (_ || _) = false |- _ => apply orb_false_iff in H as [? ?]
         | H : (_ || _) = true |- _ => apply orb_true_iff in H as [?|?]
         | H : (_ && _) = true |- _ => apply andb_true_iff in H as [? ?]
         | H : (_ && _) = false |- _ => apply andb_false_iff in H as [?|?]
         | H : (_ =? _) = true |- _ => apply Z.eqb_eq in H
         | H : (_ =? _) = false |- _ => apply Z.eqb_neq in H
         | H : (_ <? _) = true |- _ => apply Z.ltb_lt in H
         | H : (_ <? _) = false |- _ => apply Z.ltb_ge in H
         | H : (_ <=? _) = true |- _ => apply Z.leb_le in H
         | H : (_ <=? _) = false |- _ => apply Z.leb_gt in H
         end.

(* ================================================================== *)
(** ** Definitions used by the store lemmas *)

Definition preserves {A} (k : string) (m : M A) : Prop :=
  forall st, (m st).1 !! k = st !! k.

Definition field_type (def_repr : list (list Z * ptype)) (key : list Z) : option ptype :=
  option_map snd (find (fun kt => bool_decide (kt.1 = key)) def_repr).

(** The value [push] stores for a supplied [key=v]. *)
Definition stored_value (v : pyval) : pyval :=
  match v with PDatetime d => PStr (strftime_canonical d) | _ => v end.

Definition valid_datetime (dt : datetime) : bool :=
  (1 <=? dt_year dt) && (dt_year dt <=? 9999) && (1 <=? dt_month dt) && (dt_month dt <=? 12)
  && (1 <=? dt_day dt) && (dt_day dt <=? 31) && (0 <=? dt_hour dt) && (dt_hour dt <=? 23)
  && (0 <=? dt_minute dt) && (dt_minute dt <=? 59) && (0 <=? dt_second dt) && (dt_second dt <=? 59)
  && (0 <=? dt_microsecond dt) && (dt_microsecond dt <=? 999999).

Definition field_value_ok (v : pyval) : bool :=
  match v with PDatetime dt => valid_datetime dt | _ => literal_ok v end.

Fixpoint pushes (P : platform) (o : CacheORM) (name : string) (kvss : list (list (list Z * pyval)))
  : M (list bool) :=
  match kvss with
  | [] => ret []
  | kvals :: r => b <-- push P o name kvals ;; bs <-- pushes P o name r ;; ret (b :: bs)
  end.

Definition coll_state (P : platform) (name : string) (st : store) (recs : list (list (pyval * pyval)))
  : Prop :=
  match recs with
  | [] => st !! name = None
  | _ => exists blob, st !! name = Some blob /\ blob <> [] /\
          deserialize_dict P blob false = Ok (PList (map PDict recs))
  end.

(** ** The example schemas and stores *)

(** A platform for the examples: printable characters are those of printable ASCII, and
    compression is a lossless stand-in. *)
Definition example_platform : platform := mkPlatform ascii_printable (fun b => b) (fun b => Some b).

Definition users : CacheDefinition :=
  mkCacheDefinition "users" [(cps "email", TStr); (cps "age", TInt)].
Definition readings : CacheDefinition :=
  mkCacheDefinition "readings" [(cps "score", TFloat); (cps "at", TDatetime)].
Definition tagged : CacheDefinition := mkCacheDefinition "tagged" [(cps "tags", TList)].
Definition orm : CacheORM := mkCacheORM [users; readings; tagged] false.

Definition rec_a : list (list Z * pyval) := [(cps "email", PStr (cps "a@x.com")); (cps "age", PInt 30)].
Definition rec_b : list (list Z * pyval) := [(cps "email", PStr (cps "b@x.com")); (cps "age", PInt 30)].
Definition rec_a_dict : list (pyval * pyval) :=
  [(PStr (cps "email"), PStr (cps "a@x.com")); (PStr (cps "age"), PInt 30)].
Definition rec_b_dict : list (pyval * pyval) :=
  [(PStr (cps "email"), PStr (cps "b@x.com")); (PStr (cps "age"), PInt 30)].
Definition noon : datetime := mkDatetime 2024 1 2 12 30 5 0.
Definition early : datetime := mkDatetime 5 1 2 3 4 5 0.
Definition inf_collection : pyval := PList [PDict [(PStr (cps "score"), PFloat (FInf false))]].

(** A store holding only an empty index [{}] for [name]. *)
Definition with_index (name : string) : store := <["_idx_" +:+ name := cps "{}"]> ∅.
(** A store holding a one-record [users] collection and no index. *)
Definition stored_a : store := <["users" := cps "[{'email': 'a@x.com', 'age': 30}]"]> ∅.

(** ** Read-only computations *)

(** A computation that leaves every store unchanged. *)
Definition read_only {A} (m : M A) : Prop := forall st, (m st).1 = st.

(** ** Column (the SQL part) *)

(** [column_type.index(c)] where [c] is known to occur. *)
Fixpoint cp_index (c : Z) (s : list Z) : nat :=
  match s with
  | [] => O
  | x :: r => if Z.eqb x c then O else S (cp_index c r)
  end.

Record Column := mkColumn {
  col_name : list Z;
  col_type : list Z;
  col_has_auto_increment : bool;
  col_is_null : bool;
  col_has_default_val : pyval
}.

Definition allowed_types : list (list Z) :=
  map cps ["int"; "varchar"; "timestamp"; "text"; "bigint"; "long"; "float"]%string.

Section ColumnModel.
(** [str.lower] and [str.upper] of the platform's Unicode tables. *)
Variable py_lower py_upper : list Z -> list Z.

(** [Column.__init__]; [None] is the [AssertionError] of its [assert]. *)
Definition Column_init (column_name column_type : list Z) (is_null auto_increment : bool)
    (default : pyval) : option Column :=
  let check := if existsb (Z.eqb 40) column_type
               then firstn (cp_index 40 column_type) column_type else column_type in
  let check := column_type in
  if existsb (fun a => bool_decide (a = py_lower check)) allowed_types
  then Some (mkColumn column_name (py_upper column_type) auto_increment is_null default)
  else None.
End ColumnModel.

(** ASCII case mapping, enough for the column types above. *)
Definition ascii_lower (s : list Z) : list Z :=
  map (fun c => if (65 <=? c) && (c <=? 90) then c + 32 else c) s.
Definition ascii_upper (s : list Z) : list Z :=
  map (fun c => if (97 <=? c) && (c <=? 122) then c - 32 else c) s.

(** * Proofs *)

(** ** Examples *)

Example repr_example :
  py_repr ascii_printable
    (PList [PDict [(PStr (cps "email"), PStr (cps "a@x.com")); (PStr (cps "age"), PInt 30);
                   (PStr (cps "f"), PFloat (FFin true 15 (-1)))]])
  = cps "[{'email': 'a@x.com', 'age': 30, 'f': -1.5}]".
Proof. reflexivity. Qed.

Example literal_eval_example :
  literal_eval (cps "[{'email': 'a@x.com', 'age': 30, 'f': -1.5, 't': (1,), 'e': 1e-05}]")
  = Some (PList [PDict [(PStr (cps "email"), PStr (cps "a@x.com")); (PStr (cps "age"), PInt 30);
                        (PStr (cps "f"), PFloat (FFin true 15 (-1)));
                        (PStr (cps "t"), PTuple [PInt 1]);
                        (PStr (cps "e"), PFloat (FFin false 1 (-5)))]]).
Proof. reflexivity. Qed.

Example literal_eval_inf : literal_eval (cps "[{'x': inf}]") = None.
Proof. reflexivity. Qed.

(** ** Decimal digits *)

Lemma dval_acc (ys : list Z) (a : Z) :
  fold_left (fun acc d => acc * 10 + d) ys a = a * 10 ^ Z.of_nat (length ys) + dval ys.
Proof.
  unfold dval. revert a. induction ys as [|y ys IH]; intros a; cbn [fold_left length].
  - lia.
  - rewrite (IH (a * 10 + y)), (IH (0 * 10 + y)).
    rewrite Nat2Z.inj_succ, Z.pow_succ_r by lia. lia.
Qed.

Lemma dval_app (xs ys : list Z) :
  dval (xs ++ ys) = dval xs * 10 ^ Z.of_nat (length ys) + dval ys.
Proof. unfold dval at 1. rewrite fold_left_app. apply dval_acc. Qed.

Lemma dval_cons (x : Z) (ys : list Z) :
  dval (x :: ys) = x * 10 ^ Z.of_nat (length ys) + dval ys.
Proof. apply (dval_app [x] ys). Qed.

Lemma dval_zeros (k : nat) (ys : list Z) : dval (repeat 0 k ++ ys) = dval ys.
Proof. induction k as [|k IH]; simpl; [reflexivity|]. rewrite dval_cons. exact IH. Qed.

Lemma dval_repeat0 (k : nat) : dval (repeat 0 k) = 0.
Proof. pose proof (dval_zeros k []) as H. rewrite app_nil_r in H. exact H. Qed.

Lemma digits_fuel_spec (k : nat) (n : Z) :
  (1 <= k)%nat -> 0 <= n < 10 ^ Z.of_nat k ->
  dval (digits_fuel k n) = n /\ Forall (fun d => 0 <= d < 10) (digits_fuel k n)
  /\ digits_fuel k n <> [].
Proof.
  revert n. induction k as [|k IH]; intros n Hk Hn; [lia|].
  simpl. destruct (n <? 10) eqn:E.
  - apply Z.ltb_lt in E. split; [reflexivity|]. split; [constructor; [lia|constructor]|].
    discriminate.
  - apply Z.ltb_ge in E.
    destruct k as [|k']; [simpl in Hn; lia|].
    destruct (IH (n / 10)) as (H1 & H2 & H3); [lia| |].
    { split; [apply Z.div_pos; lia|].
      apply Z.div_lt_upper_bound; [lia|].
      rewrite Nat2Z.inj_succ, Z.pow_succ_r in Hn by lia. lia. }
    split; [|split].
    + rewrite dval_app, H1. unfold dval. simpl. pose proof (Z.div_mod n 10). lia.
    + apply Forall_app. split; [exact H2|]. constructor; [|constructor].
      pose proof (Z.mod_pos_bound n 10). lia.
    + destruct (digits_fuel (S k') (n / 10)); [congruence|discriminate].
Qed.

Lemma digits_spec (n : Z) :
  0 <= n ->
  dval (digits n) = n /\ Forall (fun d => 0 <= d < 10) (digits n) /\ digits n <> [].
Proof.
  intros Hn. unfold digits. apply digits_fuel_spec; [lia|]. split; [lia|].
  destruct (Z.eq_dec n 0) as [->|Hn0]; [simpl; lia|].
  pose proof (Z.log2_spec n) as [_ H]; [lia|].
  rewrite Nat2Z.inj_succ, Z2Nat.id by (apply Z.log2_nonneg).
  eapply Z.lt_le_trans; [exact H|].
  apply Z.pow_le_mono_l. lia.
Qed.

Lemma digit_vals_chars (ds : list Z) : digit_vals (digit_chars ds) = ds.
Proof.
  induction ds as [|d ds IH]; simpl; [reflexivity|]. rewrite IH. f_equal. lia.
Qed.

Lemma digit_vals_app (xs ys : list Z) : digit_vals (xs ++ ys) = digit_vals xs ++ digit_vals ys.
Proof. apply map_app. Qed.

Lemma digit_chars_app (xs ys : list Z) : digit_chars (xs ++ ys) = digit_chars xs ++ digit_chars ys.
Proof. apply map_app. Qed.

Lemma digit_chars_repeat0 (k : nat) : digit_chars (repeat 0 k) = repeat 48 k.
Proof. induction k as [|k IH]; simpl; [reflexivity|]. now rewrite IH. Qed.

Lemma digit_chars_length (ds : list Z) : length (digit_chars ds) = length ds.
Proof. apply length_map. Qed.

Lemma span_digits (cs rest : list Z) :
  Forall (fun c => is_digit c = true) cs ->
  (match rest with [] => True | c :: _ => is_digit c = false end) ->
  span is_digit (cs ++ rest) = (cs, rest).
Proof.
  intros Hcs Hr. induction Hcs as [|c cs Hc _ IH]; simpl.
  - destruct rest as [|c rest]; simpl; [reflexivity|]. now rewrite Hr.
  - rewrite Hc, IH. reflexivity.
Qed.

Lemma digit_chars_are_digits (ds : list Z) :
  Forall (fun d => 0 <= d < 10) ds -> Forall (fun c => is_digit c = true) (digit_chars ds).
Proof.
  intros H. induction H as [|d ds Hd _ IH]; simpl; constructor; [|exact IH].
  unfold is_digit. apply andb_true_intro; split; apply Z.leb_le; lia.
Qed.

(** ** Normal form of a decimal mantissa *)

Lemma strip_tens_stop (k : nat) (m e : Z) :
  m mod 10 <> 0 -> strip_tens k m e = (m, e).
Proof.
  intros H. destruct k; simpl; [reflexivity|].
  destruct (m mod 10 =? 0) eqn:E; [apply Z.eqb_eq in E; congruence|reflexivity].
Qed.

Lemma strip_tens_pow (j k : nat) (m e : Z) :
  (j <= k)%nat -> m mod 10 <> 0 ->
  strip_tens k (m * 10 ^ Z.of_nat j) (e - Z.of_nat j) = (m, e).
Proof.
  revert k e. induction j as [|j IH]; intros k e Hjk Hm.
  - simpl. rewrite Z.mul_1_r, Z.sub_0_r. apply strip_tens_stop, Hm.
  - destruct k as [|k]; [lia|]. simpl strip_tens.
    rewrite Nat2Z.inj_succ, Z.pow_succ_r by lia.
    replace (m * (10 * 10 ^ Z.of_nat j)) with ((m * 10 ^ Z.of_nat j) * 10) by ring.
    rewrite Z.mod_mul by lia. simpl.
    rewrite Z.div_mul by lia.
    replace (e - Z.succ (Z.of_nat j) + 1) with (e - Z.of_nat j) by lia.
    apply IH; [lia|exact Hm].
Qed.

(** ** String literals *)

Lemma hexval_hexdig (d : Z) : 0 <= d < 16 -> hexval (hexdig d) = Some d.
Proof.
  intros Hd. unfold hexdig, hexval, is_digit.
  destruct (Z.ltb_spec d 10).
  - replace ((48 <=? 48 + d) && (48 + d <=? 57)) with true
      by (symmetry; apply andb_true_intro; split; apply Z.leb_le; lia).
    f_equal. lia.
  - replace ((48 <=? 87 + d) && (87 + d <=? 57)) with false
      by (symmetry; apply andb_false_intro2; apply Z.leb_gt; lia).
    replace ((97 <=? 87 + d) && (87 + d <=? 102)) with true
      by (symmetry; apply andb_true_intro; split; apply Z.leb_le; lia).
    f_equal. lia.
Qed.

Lemma lex_hex (q : Z) (k : nat) :
  forall v n t acc,
  lex_str q (LHex (S k) v) (hex_fixed (S k) n ++ t) acc =
  (let v' := v * 16 ^ Z.of_nat (S k) + n mod 16 ^ Z.of_nat (S k) in
   if v' <=? 1114111 then lex_str q LNormal t (v' :: acc) else None).
Proof.
  induction k as [|k IH]; intros v n t acc.
  - cbn [hex_fixed app lex_str]. rewrite hexval_hexdig by (apply Z.mod_pos_bound; lia).
    cbn -[Z.pow]. rewrite Z.div_1_r. reflexivity.
  - change (hex_fixed (S (S k)) n ++ t)
      with (hexdig ((n / 16 ^ Z.of_nat (S k)) mod 16) :: (hex_fixed (S k) n ++ t)).
    cbn [lex_str]. rewrite hexval_hexdig by (apply Z.mod_pos_bound; lia).
    rewrite IH. cbv zeta.
    assert (Hp : 0 < 16 ^ Z.of_nat (S k)) by (apply Z.pow_pos_nonneg; lia).
    replace (16 ^ Z.of_nat (S (S k))) with (16 ^ Z.of_nat (S k) * 16)
      by (rewrite (Nat2Z.inj_succ (S k)), Z.pow_succ_r by lia; ring).
    rewrite Z.rem_mul_r by lia.
    replace ((v * 16 + (n / 16 ^ Z.of_nat (S k)) mod 16) * 16 ^ Z.of_nat (S k)
             + n mod 16 ^ Z.of_nat (S k))
      with (v * (16 ^ Z.of_nat (S k) * 16)
            + (n mod 16 ^ Z.of_nat (S k) + 16 ^ Z.of_nat (S k) * ((n / 16 ^ Z.of_nat (S k)) mod 16)))
      by ring.
    reflexivity.
Qed.

Lemma lex_normal (q c : Z) (s acc : list Z) :
  c <> q -> c <> 92 -> c <> 10 ->
  lex_str q LNormal (c :: s) acc = lex_str q LNormal s (c :: acc).
Proof.
  intros H1 H2 H3. cbn [lex_str].
  destruct (Z.eqb_spec c q); [congruence|].
  destruct (Z.eqb_spec c 92); [congruence|].
  destruct (Z.eqb_spec c 10); [congruence|]. reflexivity.
Qed.

Lemma lex_hex_esc (q : Z) (k : nat) (c : Z) (t acc : list Z) :
  (q = 34 \/ q = 39) -> 0 <= c < 16 ^ Z.of_nat (S k) -> c <= 1114111 ->
  lex_str q (LHex (S k) 0) (hex_fixed (S k) c ++ t) acc = lex_str q LNormal t (c :: acc).
Proof.
  intros Hq Hc Hc'. rewrite lex_hex. cbv zeta.
  rewrite Z.mod_small by lia. rewrite Z.mul_0_l, Z.add_0_l.
  destruct (Z.leb_spec c 1114111); [reflexivity|lia].
Qed.

Lemma lex_repr_char (ip : Z -> bool) (q c : Z) (t acc : list Z) :
  (q = 34 \/ q = 39) -> wf_cp c = true ->
  lex_str q LNormal (repr_char ip q c ++ t) acc = lex_str q LNormal t (c :: acc).
Proof.
  intros Hq Hc. unfold wf_cp in Hc. apply andb_prop in Hc as [Hc1 Hc2].
  apply Z.leb_le in Hc1. apply Z.leb_le in Hc2.
  assert (Hesc : forall s, lex_str q LNormal (92 :: s) acc = lex_str q LEsc s acc).
  { intros s. cbn [lex_str]. destruct Hq as [-> | ->]; reflexivity. }
  unfold repr_char.
  destruct (Z.eqb_spec c q) as [->|Hcq]; cbn [orb].
  { cbn [app]. rewrite Hesc. destruct Hq as [-> | ->]; reflexivity. }
  destruct (Z.eqb_spec c 92) as [->|Hc92].
  { cbn [app]. rewrite Hesc. reflexivity. }
  destruct (Z.eqb_spec c 9) as [->|Hc9].
  { cbn [app]. rewrite Hesc. reflexivity. }
  destruct (Z.eqb_spec c 10) as [->|Hc10].
  { cbn [app]. rewrite Hesc. reflexivity. }
  destruct (Z.eqb_spec c 13) as [->|Hc13].
  { cbn [app]. rewrite Hesc. reflexivity. }
  destruct ((c <? 32) || (c =? 127)) eqn:Hctl.
  { cbn [app]. rewrite Hesc. cbn [lex_str Z.eqb Pos.eqb].
    apply lex_hex_esc; [exact Hq| |lia].
    apply orb_prop in Hctl as [H|H]; [apply Z.ltb_lt in H|apply Z.eqb_eq in H]; simpl; lia. }
  apply orb_false_elim in Hctl as [Hlt Hdel].
  apply Z.ltb_ge in Hlt. apply Z.eqb_neq in Hdel.
  destruct (Z.ltb_spec c 127).
  { cbn [app]. apply lex_normal; assumption. }
  destruct (ip c).
  { cbn [app]. apply lex_normal; assumption. }
  destruct (Z.leb_spec c 255).
  { cbn [app]. rewrite Hesc. cbn [lex_str Z.eqb Pos.eqb].
    apply lex_hex_esc; [exact Hq|simpl; lia|lia]. }
  destruct (Z.leb_spec c 65535).
  { cbn [app]. rewrite Hesc. cbn [lex_str Z.eqb Pos.eqb].
    apply lex_hex_esc; [exact Hq|simpl; lia|lia]. }
  cbn [app]. rewrite Hesc. cbn [lex_str Z.eqb Pos.eqb].
  apply lex_hex_esc; [exact Hq|simpl; lia|lia].
Qed.

Lemma lex_repr_body (ip : Z -> bool) (q : Z) (s rest acc : list Z) :
  (q = 34 \/ q = 39) -> forallb wf_cp s = true ->
  lex_str q LNormal (flat_map (repr_char ip q) s ++ q :: rest) acc = Some (rev acc ++ s, rest).
Proof.
  intros Hq. revert acc. induction s as [|c s IH]; intros acc Hs; cbn [flat_map app].
  - cbn [lex_str]. rewrite Z.eqb_refl, app_nil_r. reflexivity.
  - cbn [forallb] in Hs. apply andb_prop in Hs as [Hc Hs].
    rewrite <- app_assoc, lex_repr_char by assumption.
    rewrite IH by assumption. cbn [rev]. rewrite <- app_assoc. reflexivity.
Qed.

Lemma repr_quote_cases (s : list Z) : repr_quote s = 34 \/ repr_quote s = 39.
Proof. unfold repr_quote. destruct (_ && _); auto. Qed.

(** ** Numbers *)

Lemma delim_cases (c : Z) :
  delim c = true ->
  c = 44 \/ c = 93 \/ c = 41 \/ c = 125 \/ c = 58 \/ c = 32 \/ c = 9 \/ c = 10 \/ c = 13 \/ c = 12.
Proof.
  unfold delim, is_ws. intros H.
  repeat match goal with
         | H : (_ || _) = true |- _ => apply orb_prop in H as [H|H]
         | H : (_ =? _) = true |- _ => apply Z.eqb_eq in H
         end; lia.
Qed.

Lemma span_app (p : Z -> bool) (cs rest : list Z) :
  Forall (fun c => p c = true) cs ->
  (match rest with [] => True | c :: _ => p c = false end) ->
  span p (cs ++ rest) = (cs, rest).
Proof.
  intros Hcs Hr. induction Hcs as [|c cs Hc _ IH]; simpl.
  - destruct rest as [|c rest]; simpl; [reflexivity|]. now rewrite Hr.
  - rewrite Hc, IH. reflexivity.
Qed.

Lemma delimited_not_digit (rest : list Z) :
  delimited rest -> match rest with [] => True | c :: _ => is_digit c = false end.
Proof.
  destruct rest as [|c rest]; simpl; [trivial|]. intros H.
  apply delim_cases in H. unfold is_digit.
  repeat destruct H as [H|H]; subst; reflexivity.
Qed.

Lemma delimited_not_ident (rest : list Z) :
  delimited rest -> match rest with [] => True | c :: _ => is_ident_char c = false end.
Proof.
  destruct rest as [|c rest]; simpl; [trivial|]. intros H.
  apply delim_cases in H.
  repeat destruct H as [H|H]; subst; reflexivity.
Qed.

(** After a number's digits, a delimiter is neither a dot nor an exponent. *)
Lemma parse_tail (rest : list Z) :
  delimited rest ->
  (match rest with
   | c :: r2 => if c =? 46 then let '(fp, r3) := span is_digit r2 in (true, fp, r3)
                else (false, [], rest)
   | [] => (false, [], rest)
   end) = (false, [], rest)
  /\ parse_exp_part rest = Some (None, rest).
Proof.
  destruct rest as [|c rest]; simpl; [auto|]. intros H.
  apply delim_cases in H. repeat destruct H as [H|H]; subst; split; reflexivity.
Qed.

Lemma parse_number_int (cs rest : list Z) :
  cs <> [] -> Forall (fun c => is_digit c = true) cs -> delimited rest ->
  parse_number (cs ++ rest) = Some (PInt (dval (digit_vals cs)), rest).
Proof.
  intros Hne Hcs Hr. unfold parse_number.
  rewrite span_digits; [|exact Hcs|exact (delimited_not_digit rest Hr)].
  destruct (parse_tail rest Hr) as [H1 H2].
  destruct cs as [|c cs]; [congruence|]. rewrite H1, H2, app_nil_r. reflexivity.
Qed.

Lemma parse_number_dot (ip fp t rest : list Z) (ex : option Z) :
  ip <> [] -> Forall (fun c => is_digit c = true) ip -> Forall (fun c => is_digit c = true) fp ->
  (match t with [] => True | c :: _ => is_digit c = false end) ->
  parse_exp_part t = Some (ex, rest) ->
  parse_number (ip ++ 46 :: fp ++ t) =
  Some (PFloat (mk_float (dval (digit_vals (ip ++ fp)))
                  (match ex with Some x => x | None => 0 end - Z.of_nat (length fp))
                  (length (digit_vals (ip ++ fp)))), rest).
Proof.
  intros Hne Hip Hfp Ht Hex. unfold parse_number.
  rewrite span_digits; [|exact Hip|reflexivity].
  destruct ip as [|c ip]; [congruence|].
  cbn [Z.eqb Pos.eqb]. rewrite span_digits; [|exact Hfp|exact Ht].
  rewrite Hex. destruct ex; reflexivity.
Qed.

Lemma parse_number_exp (ip t rest : list Z) (x : Z) :
  ip <> [] -> Forall (fun c => is_digit c = true) ip ->
  parse_exp_part (101 :: t) = Some (Some x, rest) ->
  parse_number (ip ++ 101 :: t) =
  Some (PFloat (mk_float (dval (digit_vals ip)) x (length (digit_vals ip))), rest).
Proof.
  intros Hne Hip Hex. unfold parse_number.
  rewrite span_digits; [|exact Hip|reflexivity].
  destruct ip as [|c ip]; [congruence|].
  cbn [Z.eqb Pos.eqb]. rewrite Hex. rewrite app_nil_r, Z.sub_0_r. reflexivity.
Qed.

Lemma digits_digit_chars (n : Z) :
  0 <= n ->
  digit_chars (digits n) <> [] /\ Forall (fun c => is_digit c = true) (digit_chars (digits n))
  /\ dval (digit_vals (digit_chars (digits n))) = n.
Proof.
  intros Hn. destruct (digits_spec n Hn) as (H1 & H2 & H3).
  split; [|split].
  - destruct (digits n); [congruence|discriminate].
  - apply digit_chars_are_digits, H2.
  - rewrite digit_vals_chars. exact H1.
Qed.

Lemma parse_exp_repr (x : Z) (rest : list Z) :
  delimited rest -> parse_exp_part (101 :: repr_exponent x ++ rest) = Some (Some x, rest).
Proof.
  intros Hr. unfold repr_exponent.
  destruct (digits_spec (Z.abs x) (Z.abs_nonneg x)) as (H1 & H2 & H3).
  set (ds := digits (Z.abs x)) in *.
  set (pd := if (length ds <? 2)%nat then 0 :: ds else ds).
  assert (Hpd : dval pd = Z.abs x /\ Forall (fun d => 0 <= d < 10) pd /\ pd <> []).
  { unfold pd. destruct (length ds <? 2)%nat.
    - rewrite dval_cons. split; [lia|]. split; [constructor; [lia|exact H2]|discriminate].
    - auto. }
  destruct Hpd as (Hp1 & Hp2 & Hp3).
  assert (Hcs := digit_chars_are_digits pd Hp2).
  assert (Hne : digit_chars pd <> []) by (destruct pd; [congruence|discriminate]).
  cbn [parse_exp_part Z.eqb Pos.eqb orb].
  destruct (Z.ltb_spec x 0).
  - rewrite <- app_comm_cons. unfold parse_exponent. cbn [Z.eqb Pos.eqb].
    rewrite span_digits; [|exact Hcs|exact (delimited_not_digit rest Hr)].
    destruct (digit_chars pd) eqn:E; [congruence|].
    rewrite <- E, digit_vals_chars, Hp1. f_equal. f_equal. f_equal. lia.
  - rewrite <- app_comm_cons. unfold parse_exponent. cbn [Z.eqb Pos.eqb].
    rewrite span_digits; [|exact Hcs|exact (delimited_not_digit rest Hr)].
    destruct (digit_chars pd) eqn:E; [congruence|].
    rewrite <- E, digit_vals_chars, Hp1. f_equal. f_equal. f_equal. lia.
Qed.

Lemma mk_float_nf (m e : Z) (k : nat) :
  m <> 0 -> m mod 10 <> 0 -> mk_float m e k = FFin false m e.
Proof.
  intros H1 H2. unfold mk_float. destruct (Z.eqb_spec m 0); [congruence|].
  rewrite strip_tens_stop by exact H2. reflexivity.
Qed.

Lemma digit_vals_repeat48 (k : nat) : digit_vals (repeat 48 k) = repeat 0 k.
Proof. rewrite <- digit_chars_repeat0. apply digit_vals_chars. Qed.

Lemma repeat48_digits (k : nat) : Forall (fun c => is_digit c = true) (repeat 48 k).
Proof. induction k; constructor; [reflexivity|assumption]. Qed.

Lemma digits_zero : digits 0 = [0].
Proof. reflexivity. Qed.

Lemma repr_float_sign (neg : bool) (m e : Z) :
  repr_float (FFin neg m e) =
  if neg then 45 :: repr_float (FFin false m e) else repr_float (FFin false m e).
Proof. destruct neg; reflexivity. Qed.

Lemma parse_repr_float (m e : Z) (rest : list Z) :
  wf_float (FFin false m e) = true -> delimited rest ->
  parse_number (repr_float (FFin false m e) ++ rest) = Some (PFloat (FFin false m e), rest).
Proof.
  intros Hwf Hr. cbn [wf_float] in Hwf. apply andb_prop in Hwf as [Hm Hwf].
  apply Z.leb_le in Hm.
  assert (Hnf : m = 0 /\ e = 0 \/ m <> 0 /\ m mod 10 <> 0).
  { destruct (Z.eqb_spec m 0); [left; split; [assumption|apply Z.eqb_eq, Hwf]|].
    right; split; [assumption|]. intros E. rewrite E in Hwf. discriminate. }
  clear Hwf.
  destruct (digits_spec m Hm) as (H1 & H2 & H3).
  destruct (parse_tail rest Hr) as [_ Ht].
  unfold repr_float.
  set (ds := digits m) in *.
  set (n := Z.of_nat (length ds)).
  assert (Hn : 1 <= n) by (unfold n; destruct ds; [congruence|simpl; lia]).
  assert (Hz : m = 0 -> n = 1) by (intros ->; reflexivity).
  cbv zeta.
  destruct ((n + e <=? -4) || (16 <? n + e)) eqn:Ecase.
  - (* exponent notation *)
    assert (Hm0 : m <> 0 /\ m mod 10 <> 0).
    { destruct Hnf as [[-> ->]|Hnf]; [|exact Hnf]. rewrite Hz in Ecase by reflexivity.
      discriminate. }
    destruct ds as [|d0 rs] eqn:Eds; [congruence|].
    assert (Hd0 : Forall (fun c => is_digit c = true) (digit_chars [d0])).
    { apply digit_chars_are_digits. inversion H2; constructor; [assumption|constructor]. }
    destruct rs as [|r0 rr].
    + cbn [app]. rewrite <- app_assoc. cbn [app].
      rewrite (parse_number_exp _ _ rest (n + e - 1)); [|discriminate|exact Hd0|].
      * rewrite digit_vals_chars, H1. rewrite mk_float_nf by tauto.
        replace (n + e - 1) with e by (unfold n; cbn [length]; lia). reflexivity.
      * apply parse_exp_repr, Hr.
    + rewrite <- !app_assoc. cbn [app].
      rewrite (parse_number_dot _ _ _ rest (Some (n + e - 1))).
      * rewrite <- digit_chars_app, digit_vals_chars. cbn [app].
        rewrite mk_float_nf by (rewrite <- H1 in Hm0; tauto).
        rewrite H1, digit_chars_length.
        match goal with |- context [FFin false m ?x] => replace x with e by (unfold n; cbn [length]; lia) end.
        reflexivity.
      * discriminate.
      * exact Hd0.
      * apply digit_chars_are_digits. inversion H2; assumption.
      * reflexivity.
      * apply parse_exp_repr, Hr.
  - apply orb_false_elim in Ecase as [E1 E2].
    apply Z.leb_gt in E1. apply Z.ltb_ge in E2.
    destruct (Z.leb_spec (n + e) 0) as [E3|E3].
    + (* 0.000ddd *)
      assert (Hm0 : m <> 0 /\ m mod 10 <> 0).
      { destruct Hnf as [[-> ->]|Hnf]; [|exact Hnf]. specialize (Hz eq_refl). lia. }
      change (48 :: 46 :: repeat 48 (Z.to_nat (- (n + e))) ++ digit_chars ds)
        with ([48] ++ 46 :: repeat 48 (Z.to_nat (- (n + e))) ++ digit_chars ds).
      rewrite <- (app_assoc [48]), <- (app_comm_cons _ _ 46).
      rewrite (parse_number_dot _ _ _ rest None).
      * rewrite digit_vals_app, digit_vals_app, digit_vals_repeat48, digit_vals_chars.
        change (digit_vals [48] ++ repeat 0 (Z.to_nat (- (n + e))) ++ ds)
          with (repeat 0 (S (Z.to_nat (- (n + e)))) ++ ds).
        rewrite dval_zeros, H1, mk_float_nf by tauto.
        rewrite length_app, repeat_length, digit_chars_length.
        match goal with |- context [FFin false m ?x] => replace x with e by (unfold n in *; lia) end.
        reflexivity.
      * discriminate.
      * repeat constructor.
      * apply Forall_app. split; [apply repeat48_digits|apply digit_chars_are_digits, H2].
      * exact (delimited_not_digit rest Hr).
      * exact Ht.
    + destruct (Z.leb_spec n (n + e)) as [E4|E4].
      * (* ddd000.0 *)
        replace (digit_chars ds ++ repeat 48 (Z.to_nat (n + e - n)) ++ [46; 48])
          with ((digit_chars ds ++ repeat 48 (Z.to_nat e)) ++ 46 :: [48])
          by (rewrite <- app_assoc; do 3 f_equal; lia).
        rewrite <- (app_assoc _ (46 :: [48])), <- (app_comm_cons _ _ 46).
        rewrite (parse_number_dot _ _ _ rest None).
        -- rewrite !digit_vals_app, digit_vals_repeat48, digit_vals_chars.
           change (digit_vals [48]) with [0].
           assert (He : 0 <= e) by (unfold n in *; lia).
           assert (Hv : dval ((ds ++ repeat 0 (Z.to_nat e)) ++ [0])
                        = m * 10 ^ Z.of_nat (S (Z.to_nat e))).
           { rewrite <- app_assoc, dval_app, <- repeat_cons, H1.
             change (0 :: repeat 0 (Z.to_nat e)) with (repeat 0 (S (Z.to_nat e))).
             rewrite dval_repeat0, repeat_length. lia. }
           rewrite Hv. unfold mk_float.
           destruct Hnf as [[-> ->]|[Hm0 Hm10]]; [reflexivity|].
           destruct (Z.eqb_spec (m * 10 ^ Z.of_nat (S (Z.to_nat e))) 0) as [E5|E5].
           { apply Z.mul_eq_0 in E5 as [E5|E5]; [congruence|].
             exfalso. revert E5. apply Z.pow_nonzero; lia. }
           replace (0 - Z.of_nat (length [48])) with (e - Z.of_nat (S (Z.to_nat e)))
             by (cbn [length]; lia).
           rewrite strip_tens_pow; [reflexivity| |exact Hm10].
           rewrite !length_app, repeat_length. cbn [length]. lia.
        -- destruct ds; [congruence|discriminate].
        -- apply Forall_app. split; [apply digit_chars_are_digits, H2|apply repeat48_digits].
        -- repeat constructor.
        -- exact (delimited_not_digit rest Hr).
        -- exact Ht.
      * (* dd.ddd *)
        assert (Hm0 : m <> 0 /\ m mod 10 <> 0).
        { destruct Hnf as [[-> ->]|Hnf]; [|exact Hnf]. specialize (Hz eq_refl). lia. }
        rewrite <- app_assoc. cbn [app].
        rewrite (parse_number_dot _ _ _ rest None).
        -- rewrite <- digit_chars_app, firstn_skipn, digit_vals_chars, H1.
           rewrite mk_float_nf by tauto.
           rewrite digit_chars_length, length_skipn.
           match goal with |- context [FFin false m ?x] => replace x with e by (unfold n in *; lia) end.
           reflexivity.
        -- destruct ds as [|d ds']; [congruence|].
           destruct (Z.to_nat (n + e)) eqn:Ed; [lia|]. discriminate.
        -- apply digit_chars_are_digits.
           rewrite <- (firstn_skipn (Z.to_nat (n + e)) ds) in H2. apply Forall_app in H2. tauto.
        -- apply digit_chars_are_digits.
           rewrite <- (firstn_skipn (Z.to_nat (n + e)) ds) in H2. apply Forall_app in H2. tauto.
        -- exact (delimited_not_digit rest Hr).
        -- exact Ht.
Qed.

(** ** Dispatch of [parse_value] on the first character *)

Lemma skip_ws_cons (c : Z) (r : list Z) : is_ws c = false -> skip_ws (c :: r) = c :: r.
Proof. intros H. simpl. rewrite H. reflexivity. Qed.

Lemma parse_value_ws (f : nat) (c : Z) (s : list Z) :
  is_ws c = true -> parse_value (S f) (c :: s) = parse_value (S f) s.
Proof. intros H. cbn [parse_value skip_ws]. rewrite H. reflexivity. Qed.

Lemma parse_seq_ws (f : nat) (close c : Z) (s : list Z) :
  is_ws c = true -> parse_seq (S f) close (c :: s) = parse_seq (S f) close s.
Proof. intros H. cbn [parse_seq skip_ws]. rewrite H. reflexivity. Qed.

Lemma parse_entries_ws (f : nat) (c : Z) (s : list Z) :
  is_ws c = true -> parse_entries (S f) (c :: s) = parse_entries (S f) s.
Proof. intros H. cbn [parse_entries skip_ws]. rewrite H. reflexivity. Qed.

Lemma parse_value_digit (f : nat) (c : Z) (r : list Z) :
  is_digit c = true -> parse_value (S f) (c :: r) = parse_number (c :: r).
Proof.
  intros H. unfold is_digit in H. apply andb_prop in H as [H1 H2].
  apply Z.leb_le in H1. apply Z.leb_le in H2.
  cbn [parse_value skip_ws]. unfold is_ws. neq_consts. cbn [orb]. neq_consts. cbn [orb].
  unfold is_digit. replace ((48 <=? c) && (c <=? 57)) with true
    by (symmetry; apply andb_true_intro; split; apply Z.leb_le; lia).
  reflexivity.
Qed.

Lemma parse_number_head (s : list Z) (v : pyval) (r : list Z) :
  parse_number s = Some (v, r) -> exists c s', s = c :: s' /\ is_digit c = true.
Proof.
  unfold parse_number. destruct s as [|c s']; [discriminate|].
  cbn [span]. destruct (is_digit c) eqn:E; [eauto|].
  discriminate.
Qed.

Lemma digit_head_ok (c : Z) : is_digit c = true -> head_ok c = true.
Proof.
  intros H. unfold is_digit in H. apply andb_prop in H as [H1 H2].
  apply Z.leb_le in H1. apply Z.leb_le in H2.
  unfold head_ok, is_ws. neq_consts. reflexivity.
Qed.

Lemma repr_float_head (m e : Z) :
  wf_float (FFin false m e) = true ->
  exists c r, repr_float (FFin false m e) = c :: r /\ is_digit c = true.
Proof.
  intros H. pose proof (parse_repr_float m e [] H I) as Hp.
  apply parse_number_head in Hp as (c & s' & Hs & Hc).
  rewrite app_nil_r in Hs. eauto.
Qed.

Lemma repr_head (ip : Z -> bool) (v : pyval) :
  literal_ok v = true -> exists c r, py_repr ip v = c :: r /\ head_ok c = true.
Proof.
  intros Hok. destruct v as [| b | z | f | s | l | l | d | d]; cbn [py_repr].
  - eexists _, _. split; reflexivity.
  - destruct b; eexists _, _; split; reflexivity.
  - unfold repr_int. destruct (z <? 0) eqn:Ez.
    + eexists _, _. split; reflexivity.
    + apply Z.ltb_ge in Ez. destruct (digits_digit_chars z Ez) as (Hne & Hd & _).
      destruct (digit_chars (digits z)) as [|c r]; [congruence|].
      exists c, r. split; [reflexivity|]. apply digit_head_ok. inversion Hd; assumption.
  - destruct f as [neg m e| |]; try discriminate. cbn [literal_ok] in Hok.
    rewrite repr_float_sign. destruct neg.
    + eexists _, _. split; reflexivity.
    + assert (Hw : wf_float (FFin false m e) = true) by exact Hok.
      destruct (repr_float_head m e Hw) as (c & r & -> & Hc).
      exists c, r. split; [reflexivity|]. apply digit_head_ok, Hc.
  - unfold repr_str. destruct (repr_quote_cases s) as [E|E];
      rewrite E; eexists _, _; split; reflexivity.
  - eexists _, _. split; reflexivity.
  - destruct l as [|x [|y l]]; eexists _, _; split; reflexivity.
  - eexists _, _. split; reflexivity.
  - discriminate.
Qed.

(** ** Atoms *)

Lemma parse_value_upper (f : nat) (c : Z) (r : list Z) :
  65 <= c <= 90 ->
  parse_value (S f) (c :: r) =
  let '(id, r') := span is_ident_char (c :: r) in
  if bool_decide (id = cps "True") then Some (PBool true, r')
  else if bool_decide (id = cps "False") then Some (PBool false, r')
  else if bool_decide (id = cps "None") then Some (PNone, r')
  else None.
Proof.
  intros Hc. cbn [parse_value skip_ws]. unfold is_ws. neq_consts. cbn [orb]. neq_consts.
  cbn [orb]. unfold is_digit.
  replace ((48 <=? c) && (c <=? 57)) with false
    by (symmetry; apply andb_false_intro2; apply Z.leb_gt; lia).
  replace (is_ident_char c) with true.
  - reflexivity.
  - unfold is_ident_char, is_digit.
    replace ((65 <=? c) && (c <=? 90)) with true
      by (symmetry; apply andb_true_intro; split; apply Z.leb_le; lia).
    rewrite orb_true_r. reflexivity.
Qed.

Lemma parse_ident (f : nat) (w : list Z) (rest : list Z) :
  (w = cps "None" \/ w = cps "True" \/ w = cps "False") -> delimited rest ->
  parse_value (S f) (w ++ rest) =
  Some (if bool_decide (w = cps "True") then PBool true
        else if bool_decide (w = cps "False") then PBool false else PNone, rest).
Proof.
  intros Hw Hr. pose proof (delimited_not_ident rest Hr) as Hi.
  assert (Hwi : Forall (fun c => is_ident_char c = true) w)
    by (destruct Hw as [-> | [-> | ->]]; repeat constructor).
  assert (Hc : exists c w', w = c :: w' /\ 65 <= c <= 90)
    by (destruct Hw as [-> | [-> | ->]]; [exists 78 | exists 84 | exists 70];
        (eexists; split; [reflexivity|lia])).
  destruct Hc as (c & w' & Ew & Hc).
  rewrite Ew. change ((c :: w') ++ rest) with (c :: (w' ++ rest)).
  rewrite parse_value_upper by exact Hc.
  change (span is_ident_char (c :: w' ++ rest)) with (span is_ident_char ((c :: w') ++ rest)).
  rewrite <- Ew, span_app by assumption.
  destruct Hw as [-> | [-> | ->]]; reflexivity.
Qed.

Lemma parse_value_minus (f : nat) (r : list Z) :
  parse_value (S f) (45 :: r) =
  match parse_number (skip_ws r) with
  | Some (v, r') => match negate v with Some v' => Some (v', r') | None => None end
  | None => None
  end.
Proof. reflexivity. Qed.

Lemma parse_value_quote (f : nat) (q : Z) (r : list Z) :
  q = 34 \/ q = 39 ->
  parse_value (S f) (q :: r) =
  match lex_str q LNormal r [] with Some (t, r') => Some (PStr t, r') | None => None end.
Proof. intros [-> | ->]; reflexivity. Qed.

Lemma is_digit_not_ws (c : Z) : is_digit c = true -> is_ws c = false.
Proof.
  intros H. unfold is_digit in H. apply andb_prop in H as [H1 H2].
  apply Z.leb_le in H1. apply Z.leb_le in H2. unfold is_ws. neq_consts. reflexivity.
Qed.

Lemma parse_repr_int (f : nat) (z : Z) (rest : list Z) :
  delimited rest -> parse_value (S f) (repr_int z ++ rest) = Some (PInt z, rest).
Proof.
  intros Hr. unfold repr_int. destruct (Z.ltb_spec z 0) as [Hz|Hz].
  - destruct (digits_digit_chars (- z) ltac:(lia)) as (Hne & Hd & Hv).
    cbn [app]. rewrite parse_value_minus.
    destruct (digit_chars (digits (- z))) as [|c r] eqn:E; [congruence|].
    cbn [app]. rewrite skip_ws_cons by (apply is_digit_not_ws; inversion Hd; assumption).
    change (c :: r ++ rest) with ((c :: r) ++ rest).
    rewrite parse_number_int by assumption. rewrite Hv. cbn [negate].
    rewrite Z.opp_involutive. reflexivity.
  - destruct (digits_digit_chars z Hz) as (Hne & Hd & Hv).
    destruct (digit_chars (digits z)) as [|c r] eqn:E; [congruence|].
    cbn [app]. rewrite parse_value_digit by (inversion Hd; assumption).
    change (c :: r ++ rest) with ((c :: r) ++ rest).
    rewrite parse_number_int by assumption. rewrite Hv. reflexivity.
Qed.

Lemma parse_repr_floatv (f : nat) (fl : pyfloat) (rest : list Z) :
  wf_float fl = true -> delimited rest ->
  parse_value (S f) (repr_float fl ++ rest) = Some (PFloat fl, rest).
Proof.
  intros Hw Hr. destruct fl as [neg m e| |]; try discriminate.
  assert (Hw' : wf_float (FFin false m e) = true) by exact Hw.
  destruct (repr_float_head m e Hw') as (c & r & Er & Hc).
  rewrite repr_float_sign. destruct neg.
  - cbn [app]. rewrite parse_value_minus.
    rewrite Er. cbn [app]. rewrite skip_ws_cons by (apply is_digit_not_ws, Hc).
    change (c :: r ++ rest) with ((c :: r) ++ rest). rewrite <- Er.
    rewrite parse_repr_float by assumption. reflexivity.
  - rewrite Er. cbn [app]. rewrite parse_value_digit by exact Hc.
    change (c :: r ++ rest) with ((c :: r) ++ rest). rewrite <- Er.
    apply parse_repr_float; assumption.
Qed.

Lemma parse_repr_str (ip : Z -> bool) (f : nat) (s rest : list Z) :
  forallb wf_cp s = true ->
  parse_value (S f) (repr_str ip s ++ rest) = Some (PStr s, rest).
Proof.
  intros Hs. unfold repr_str. cbv zeta.
  pose proof (repr_quote_cases s) as Hq.
  cbn [app]. rewrite <- app_assoc. cbn [app].
  rewrite parse_value_quote by exact Hq.
  rewrite lex_repr_body by assumption. reflexivity.
Qed.

(** ** Dicts built by [literal_eval] *)

Lemma dict_set_fresh (acc : list (pyval * pyval)) (k v : pyval) :
  (forall kv, In kv acc -> py_eq kv.1 k = false) -> dict_set acc k v = acc ++ [(k, v)].
Proof.
  induction acc as [|[k' v'] acc IH]; intros H; [reflexivity|].
  cbn [dict_set]. rewrite (H (k', v') (or_introl eq_refl) : py_eq k' k = false).
  rewrite IH; [reflexivity|]. intros kv Hkv. apply H. right. exact Hkv.
Qed.

Lemma fold_dict_set (d acc : list (pyval * pyval)) :
  keys_distinct d = true ->
  (forall kv kv', In kv acc -> In kv' d -> py_eq kv.1 kv'.1 = false) ->
  fold_left (fun d kv => dict_set d kv.1 kv.2) d acc = acc ++ d.
Proof.
  revert acc. induction d as [|[k v] d IH]; intros acc Hd Hacc.
  - cbn. rewrite app_nil_r. reflexivity.
  - cbn [fold_left keys_distinct] in *. apply andb_prop in Hd as [Hk Hd].
    rewrite dict_set_fresh.
    + cbn [fst snd]. rewrite IH; [rewrite <- app_assoc; reflexivity|exact Hd|].
      intros kv kv' Hkv Hkv'. apply in_app_or in Hkv as [Hkv|[<-|[]]].
      * apply Hacc; [exact Hkv|right; exact Hkv'].
      * cbn [fst]. rewrite forallb_forall in Hk. specialize (Hk kv' Hkv').
        apply negb_true_iff in Hk. exact Hk.
    + intros kv Hkv. apply (Hacc kv (k, v)); [exact Hkv|left; reflexivity].
Qed.

Lemma build_dict_ok (d : list (pyval * pyval)) :
  forallb (fun kv => hashable kv.1) d = true -> keys_distinct d = true ->
  build_dict d = Some (PDict d).
Proof.
  intros Hh Hd. unfold build_dict. rewrite Hh.
  rewrite (fold_dict_set d []); [reflexivity|exact Hd|].
  intros kv kv' [].
Qed.

(** ** Reading [repr] back *)

Lemma parse_seq_unfold (f : nat) (close : Z) (s : list Z) :
  parse_seq (S f) close s =
  match skip_ws s with
  | [] => None
  | c :: r =>
      if c =? close then Some ([], r) else
      match parse_value f (c :: r) with
      | None => None
      | Some (v, r1) =>
          match skip_ws r1 with
          | [] => None
          | c1 :: r2 =>
              if c1 =? close then Some ([v], r2)
              else if c1 =? 44 then
                match parse_seq f close r2 with
                | Some (vs, r3) => Some (v :: vs, r3)
                | None => None
                end
              else None
          end
      end
  end.
Proof. reflexivity. Qed.

Lemma parse_entries_unfold (f : nat) (s : list Z) :
  parse_entries (S f) s =
  match skip_ws s with
  | [] => None
  | c :: r =>
      if c =? 125 then Some ([], r) else
      match parse_value f (c :: r) with
      | None => None
      | Some (k, r1) =>
          match skip_ws r1 with
          | [] => None
          | c1 :: r2 =>
              if c1 =? 58 then
                match parse_value f r2 with
                | None => None
                | Some (v, r3) =>
                    match skip_ws r3 with
                    | [] => None
                    | c3 :: r4 =>
                        if c3 =? 125 then Some ([(k, v)], r4)
                        else if c3 =? 44 then
                          match parse_entries f r4 with
                          | Some (kvs, r5) => Some ((k, v) :: kvs, r5)
                          | None => None
                          end
                        else None
                    end
                end
              else None
          end
      end
  end.
Proof. reflexivity. Qed.

Lemma head_ok_parts (c : Z) :
  head_ok c = true -> is_ws c = false /\ c <> 93 /\ c <> 41 /\ c <> 125.
Proof.
  unfold head_ok. intros H.
  repeat match goal with H : (_ && _) = true |- _ => apply andb_prop in H as [? ?] end.
  repeat match goal with H : negb _ = true |- _ => apply negb_true_iff in H end.
  repeat match goal with H : (_ =? _) = false |- _ => apply Z.eqb_neq in H end.
  auto.
Qed.

Lemma parse_seq_rt (ip : Z -> bool) (close : Z) (l : list pyval) :
  close = 93 \/ close = 41 ->
  Forall (fun x => literal_ok x = true /\ rt_ok ip x) l ->
  forall f rest,
  (1 + list_sum (map (fun x => S (vsize x)) l) <= f)%nat -> delimited rest ->
  parse_seq f close (join_comma (map (py_repr ip) l) ++ close :: rest) = Some (l, rest).
Proof.
  intros Hc Hl. induction Hl as [|x l [Hx Hrt] Hl IH]; intros f rest Hf Hr.
  - destruct f as [|f]; [lia|]. destruct Hc as [-> | ->]; reflexivity.
  - destruct f as [|f]; [lia|]. simpl in Hf.
    destruct (repr_head ip x Hx) as (c & r & Ex & Hh).
    destruct (head_ok_parts c Hh) as (Hws & H93 & H41 & H125).
    assert (Hcl : (c =? close) = false) by (apply Z.eqb_neq; lia).
    destruct l as [|y l].
    + cbn [map join_comma]. rewrite parse_seq_unfold. rewrite Ex. cbn [app].
      rewrite skip_ws_cons by exact Hws. rewrite Hcl.
      change (c :: r ++ close :: rest) with ((c :: r) ++ close :: rest). rewrite <- Ex.
      rewrite Hrt; [|lia|destruct Hc as [-> | ->]; reflexivity].
      destruct Hc as [-> | ->]; reflexivity.
    + change (join_comma (map (py_repr ip) (x :: y :: l)))
        with (py_repr ip x ++ [44; 32] ++ join_comma (map (py_repr ip) (y :: l))).
      rewrite parse_seq_unfold, <- !app_assoc, Ex. cbn [app].
      rewrite skip_ws_cons by exact Hws. rewrite Hcl.
      change (c :: r ++ 44 :: 32 :: join_comma (map (py_repr ip) (y :: l)) ++ close :: rest)
        with ((c :: r) ++ 44 :: 32 :: join_comma (map (py_repr ip) (y :: l)) ++ close :: rest).
      rewrite <- Ex. rewrite Hrt; [|lia|reflexivity].
      rewrite skip_ws_cons by reflexivity.
      replace (44 =? close) with false by (symmetry; apply Z.eqb_neq; lia).
      cbn [Z.eqb Pos.eqb]. destruct f as [|f]; [lia|].
      rewrite parse_seq_ws by reflexivity.
      rewrite IH; [reflexivity| |exact Hr]. simpl in Hf |- *. lia.
Qed.

Lemma parse_entries_rt (ip : Z -> bool) (d : list (pyval * pyval)) :
  Forall (fun kv => (literal_ok kv.1 = true /\ rt_ok ip kv.1)
                    /\ (literal_ok kv.2 = true /\ rt_ok ip kv.2)) d ->
  forall f rest,
  (1 + list_sum (map (fun kv => S (vsize kv.1 + vsize kv.2)) d) <= f)%nat ->
  parse_entries f
    (join_comma (map (fun '(k, x) => py_repr ip k ++ [58; 32] ++ py_repr ip x) d)
     ++ 125 :: rest) = Some (d, rest).
Proof.
  intros Hd. induction Hd as [|[k v] d [[Hk Hrk] [Hv Hrv]] Hd IH]; intros f rest Hf.
  - destruct f as [|f]; [lia|]. reflexivity.
  - destruct f as [|f]; [lia|]. simpl in Hf. cbn [fst snd] in *.
    destruct (repr_head ip k Hk) as (c & r & Ek & Hh).
    destruct (head_ok_parts c Hh) as (Hws & H93 & H41 & H125).
    assert (Hcl : (c =? 125) = false) by (apply Z.eqb_neq; lia).
    destruct f as [|f]; [lia|].
    destruct d as [|[k2 v2] d].
    + cbn [map join_comma]. rewrite parse_entries_unfold, <- !app_assoc, Ek. cbn [app].
      rewrite skip_ws_cons by exact Hws. rewrite Hcl.
      change (c :: r ++ 58 :: 32 :: py_repr ip v ++ 125 :: rest)
        with ((c :: r) ++ 58 :: 32 :: py_repr ip v ++ 125 :: rest).
      rewrite <- Ek, Hrk; [|lia|reflexivity].
      rewrite skip_ws_cons by reflexivity. cbn [Z.eqb Pos.eqb].
      rewrite parse_value_ws by reflexivity.
      rewrite Hrv; [|lia|reflexivity]. reflexivity.
    + change (join_comma (map (fun '(k, x) => py_repr ip k ++ [58; 32] ++ py_repr ip x)
                            ((k, v) :: (k2, v2) :: d)))
        with ((py_repr ip k ++ [58; 32] ++ py_repr ip v) ++ [44; 32] ++
              join_comma (map (fun '(k, x) => py_repr ip k ++ [58; 32] ++ py_repr ip x)
                            ((k2, v2) :: d))).
      set (J := join_comma _).
      rewrite parse_entries_unfold, <- !app_assoc, Ek. cbn [app].
      rewrite skip_ws_cons by exact Hws. rewrite Hcl.
      change (c :: r ++ 58 :: 32 :: py_repr ip v ++ 44 :: 32 :: J ++ 125 :: rest)
        with ((c :: r) ++ 58 :: 32 :: py_repr ip v ++ 44 :: 32 :: J ++ 125 :: rest).
      rewrite <- Ek, Hrk; [|lia|reflexivity].
      rewrite skip_ws_cons by reflexivity. cbn [Z.eqb Pos.eqb].
      rewrite parse_value_ws by reflexivity.
      rewrite Hrv; [|lia|reflexivity].
      rewrite skip_ws_cons by reflexivity. cbn [Z.eqb Pos.eqb].
      rewrite parse_entries_ws by reflexivity.
      unfold J. rewrite IH; [reflexivity|]. simpl in Hf |- *. lia.
Qed.

Lemma parse_value_list (f : nat) (r : list Z) :
  parse_value (S f) (91 :: r) =
  match parse_seq f 93 r with Some (vs, r') => Some (PList vs, r') | None => None end.
Proof. reflexivity. Qed.

Lemma parse_value_dict (f : nat) (r : list Z) :
  parse_value (S f) (123 :: r) =
  match parse_entries f r with
  | Some (kvs, r') => match build_dict kvs with Some d => Some (d, r') | None => None end
  | None => None
  end.
Proof. reflexivity. Qed.

Lemma parse_value_tuple (f : nat) (r : list Z) :
  parse_value (S f) (40 :: r) =
  match skip_ws r with
  | [] => None
  | c' :: r' =>
      if c' =? 41 then Some (PTuple [], r') else
      match parse_value f (c' :: r') with
      | None => None
      | Some (v, r1) =>
          match skip_ws r1 with
          | [] => None
          | c1 :: r2 =>
              if c1 =? 41 then Some (v, r2)
              else if c1 =? 44 then
                match parse_seq f 41 r2 with
                | Some (vs, r3) => Some (PTuple (v :: vs), r3)
                | None => None
                end
              else None
          end
      end
  end.
Proof. reflexivity. Qed.

Lemma forall_rt (ip : Z -> bool) (l : list pyval) :
  Forall (fun x => literal_ok x = true -> rt_ok ip x) l -> forallb literal_ok l = true ->
  Forall (fun x => literal_ok x = true /\ rt_ok ip x) l.
Proof.
  intros H Hok. rewrite forallb_forall in Hok. rewrite List.Forall_forall in H |- *.
  intros x Hx. split; [apply Hok, Hx|apply H, Hok; exact Hx].
Qed.

Lemma parse_repr_rt (ip : Z -> bool) (v : pyval) : literal_ok v = true -> rt_ok ip v.
Proof.
  revert v. apply (pyval_ind' (fun v => literal_ok v = true -> rt_ok ip v)).
  - intros _ f rest Hf Hr. destruct f as [|f]; [cbn in Hf; lia|].
    cbn [py_repr]. rewrite parse_ident by (auto || exact Hr). reflexivity.
  - intros b _ f rest Hf Hr. destruct f as [|f]; [cbn in Hf; lia|].
    destruct b; cbn [py_repr]; rewrite parse_ident by (auto || exact Hr); reflexivity.
  - intros z _ f rest Hf Hr. destruct f as [|f]; [cbn in Hf; lia|].
    apply parse_repr_int, Hr.
  - intros fl Hok f rest Hf Hr. destruct f as [|f]; [cbn in Hf; lia|].
    apply parse_repr_floatv; assumption.
  - intros s Hok f rest Hf Hr. destruct f as [|f]; [cbn in Hf; lia|].
    apply parse_repr_str, Hok.
  - intros l HQ Hok f rest Hf Hr. destruct f as [|f]; [cbn in Hf; lia|].
    cbn [py_repr app]. rewrite <- app_assoc. cbn [app].
    rewrite parse_value_list, parse_seq_rt; [reflexivity|left; reflexivity| |cbn in Hf; lia|exact Hr].
    apply forall_rt; assumption.
  - intros l HQ Hok f rest Hf Hr. destruct f as [|f]; [cbn in Hf; lia|].
    cbn [literal_ok] in Hok. pose proof (forall_rt ip l HQ Hok) as Hl.
    destruct l as [|x [|y l]].
    + reflexivity.
    + inversion Hl as [|? ? [Hx Hrx] _]; subst.
      destruct (repr_head ip x Hx) as (c & r & Ex & Hh).
      destruct (head_ok_parts c Hh) as (Hws & H93 & H41 & H125).
      cbn [py_repr app]. rewrite <- !app_assoc. cbn [app].
      rewrite parse_value_tuple, Ex. cbn [app].
      rewrite skip_ws_cons by exact Hws.
      replace (c =? 41) with false by (symmetry; apply Z.eqb_neq; lia).
      change (c :: r ++ 44 :: 41 :: rest) with ((c :: r) ++ 44 :: 41 :: rest).
      rewrite <- Ex, Hrx; [|cbn in Hf; lia|reflexivity].
      rewrite skip_ws_cons by reflexivity. cbn [Z.eqb Pos.eqb].
      destruct f as [|f]; [cbn in Hf; lia|]. reflexivity.
    + inversion Hl as [|? ? [Hx Hrx] Hl']; subst.
      destruct (repr_head ip x Hx) as (c & r & Ex & Hh).
      destruct (head_ok_parts c Hh) as (Hws & H93 & H41 & H125).
      change (py_repr ip (PTuple (x :: y :: l)))
        with (40 :: (py_repr ip x ++ [44; 32] ++ join_comma (map (py_repr ip) (y :: l))) ++ [41]).
      set (J := join_comma _).
      cbn [app]. rewrite <- !app_assoc. cbn [app].
      rewrite parse_value_tuple, Ex. cbn [app].
      rewrite skip_ws_cons by exact Hws.
      replace (c =? 41) with false by (symmetry; apply Z.eqb_neq; lia).
      change (c :: r ++ 44 :: 32 :: J ++ 41 :: rest) with ((c :: r) ++ 44 :: 32 :: J ++ 41 :: rest).
      rewrite <- Ex, Hrx; [|cbn in Hf; lia|reflexivity].
      rewrite skip_ws_cons by reflexivity. cbn [Z.eqb Pos.eqb].
      destruct f as [|f]; [cbn in Hf; lia|].
      rewrite parse_seq_ws by reflexivity. unfold J.
      rewrite parse_seq_rt; [reflexivity|right; reflexivity|exact Hl'| |exact Hr].
      simpl in Hf |- *. lia.
  - intros d HQ Hok f rest Hf Hr. destruct f as [|f]; [cbn in Hf; lia|].
    cbn [literal_ok] in Hok. apply andb_prop in Hok as [Hall Hdist].
    cbn [py_repr app]. rewrite <- app_assoc. cbn [app].
    rewrite parse_value_dict, parse_entries_rt.
    + rewrite build_dict_ok; [reflexivity| |exact Hdist].
      rewrite forallb_forall in Hall |- *. intros kv Hkv. specialize (Hall kv Hkv).
      apply andb_prop in Hall as [Hall _]. apply andb_prop in Hall as [Hall _]. exact Hall.
    + rewrite forallb_forall in Hall. rewrite List.Forall_forall in HQ |- *.
      intros kv Hkv. specialize (Hall kv Hkv). destruct (HQ kv Hkv) as [Q1 Q2].
      apply andb_prop in Hall as [Hall H2]. apply andb_prop in Hall as [_ H1]. auto.
    + cbn in Hf. lia.
  - intros dt Hok. discriminate.
Qed.

(** ** The fuel of [literal_eval] suffices *)

Lemma join_comma_length (ls : list (list Z)) :
  (list_sum (map (@length Z) ls) + 2 * length ls <= length (join_comma ls) + 2)%nat.
Proof.
  induction ls as [|x [|y ls] IH]; [cbn; lia|cbn; lia|].
  change (join_comma (x :: y :: ls)) with (x ++ [44; 32] ++ join_comma (y :: ls)).
  rewrite !length_app. cbn [length map list_sum fold_right] in *. simpl in IH |- *. lia.
Qed.

Lemma sum_le_map {A} (f g : A -> nat) (l : list A) :
  Forall (fun x => f x <= g x)%nat l ->
  (list_sum (map f l) <= list_sum (map g l))%nat.
Proof. intros H. induction H as [|x l Hx Hl IH]; simpl in *; lia. Qed.

Lemma list_sum_map_length {A} (f : A -> list Z) (l : list A) :
  list_sum (map (@length Z) (map f l)) = list_sum (map (fun x => length (f x)) l).
Proof. rewrite map_map. reflexivity. Qed.

Lemma list_sum_map_S {A} (f : A -> nat) (l : list A) :
  list_sum (map (fun x => S (f x)) l) = (length l + list_sum (map f l))%nat.
Proof. induction l as [|a l IH]; simpl in *; lia. Qed.

Lemma list_sum_map_double {A} (f : A -> nat) (l : list A) :
  list_sum (map (fun x => (2 * f x)%nat) l) = (2 * list_sum (map f l))%nat.
Proof. induction l as [|a l IH]; simpl in *; lia. Qed.

Lemma list_sum_map_plus {A} (f g : A -> nat) (l : list A) :
  list_sum (map (fun x => (f x + g x)%nat) l) = (list_sum (map f l) + list_sum (map g l))%nat.
Proof. induction l as [|a l IH]; simpl in *; lia. Qed.

Lemma vsize_le_length (ip : Z -> bool) (v : pyval) :
  literal_ok v = true -> (vsize v <= 2 * length (py_repr ip v))%nat.
Proof.
  revert v.
  apply (pyval_ind' (fun v => literal_ok v = true -> (vsize v <= 2 * length (py_repr ip v))%nat));
    try (intros; destruct (repr_head ip _ ltac:(eassumption)) as (c & r & -> & _); cbn; lia).
  - intros l HQ Hok. pose proof (forall_rt' := HQ).
    assert (Hl : Forall (fun x => (vsize x <= 2 * length (py_repr ip x))%nat) l).
    { cbn [literal_ok] in Hok. rewrite forallb_forall in Hok. rewrite List.Forall_forall in HQ |- *.
      intros x Hx. apply HQ; [exact Hx|apply Hok, Hx]. }
    cbn [vsize py_repr length]. rewrite length_app. cbn [length].
    pose proof (join_comma_length (map (py_repr ip) l)) as HJ.
    rewrite list_sum_map_length, length_map in HJ.
    pose proof (sum_le_map _ _ _ Hl) as HS. rewrite list_sum_map_double in HS.
    rewrite list_sum_map_S. destruct l; cbn [length] in *; [cbn; lia|]. set (V := list_sum (map vsize (p :: l))) in *. set (L := list_sum (map (fun x => length (py_repr ip x)) (p :: l))) in *. set (J := length (join_comma _)) in *. clearbody V L J. lia.
  - intros l HQ Hok.
    assert (Hl : Forall (fun x => (vsize x <= 2 * length (py_repr ip x))%nat) l).
    { cbn [literal_ok] in Hok. rewrite forallb_forall in Hok. rewrite List.Forall_forall in HQ |- *.
      intros x Hx. apply HQ; [exact Hx|apply Hok, Hx]. }
    destruct l as [|x [|y l]].
    + cbn. lia.
    + inversion Hl; subst. cbn [vsize py_repr length map list_sum fold_right].
      rewrite length_app. cbn [length]. simpl. lia.
    + change (py_repr ip (PTuple (x :: y :: l)))
        with (40 :: join_comma (map (py_repr ip) (x :: y :: l)) ++ [41]).
      change (vsize (PTuple (x :: y :: l)))
        with (2 + list_sum (map (fun x => S (vsize x)) (x :: y :: l)))%nat.
      cbn [length]. rewrite length_app. cbn [length].
      pose proof (join_comma_length (map (py_repr ip) (x :: y :: l))) as HJ.
      rewrite list_sum_map_length, length_map in HJ.
      pose proof (sum_le_map _ _ _ Hl) as HS. rewrite list_sum_map_double in HS.
      rewrite list_sum_map_S. cbn [length] in *. lia.
  - intros d HQ Hok.
    assert (Hl : Forall (fun kv => (vsize kv.1 + vsize kv.2 <=
                                   2 * length (py_repr ip kv.1 ++ [58; 32]%Z ++ py_repr ip kv.2))%nat) d).
    { cbn [literal_ok] in Hok. apply andb_prop in Hok as [Hok _].
      rewrite forallb_forall in Hok. rewrite List.Forall_forall in HQ |- *.
      intros kv Hkv. destruct (HQ kv Hkv) as [Q1 Q2]. specialize (Hok kv Hkv).
      apply andb_prop in Hok as [Hok H2]. apply andb_prop in Hok as [_ H1].
      specialize (Q1 H1). specialize (Q2 H2). rewrite !length_app. cbn [length]. lia. }
    cbn [vsize py_repr length]. rewrite length_app. cbn [length].
    pose proof (join_comma_length (map (fun '(k, x) => py_repr ip k ++ [58; 32] ++ py_repr ip x) d))
      as HJ.
    rewrite list_sum_map_length, length_map in HJ.
    replace (map (fun x => length (let '(k, x0) := x in py_repr ip k ++ [58; 32] ++ py_repr ip x0)) d)
      with (map (fun kv => length (py_repr ip kv.1 ++ [58; 32] ++ py_repr ip kv.2)) d) in HJ
      by (apply map_ext; intros [k x]; reflexivity).
    pose proof (sum_le_map _ _ _ Hl) as HS. rewrite list_sum_map_double in HS.
    rewrite list_sum_map_S. destruct d; cbn [length] in *; [cbn; lia|]. lia.
Qed.

Lemma literal_eval_repr (ip : Z -> bool) (v : pyval) :
  literal_ok v = true -> literal_eval (py_repr ip v) = Some v.
Proof.
  intros H. unfold literal_eval.
  pose proof (vsize_le_length ip v H) as Hs.
  pose proof (parse_repr_rt ip v H (S (2 * length (py_repr ip v))) [] ltac:(lia) I) as E.
  rewrite app_nil_r in E. rewrite E. reflexivity.
Qed.

(** ** UTF-8 *)

Lemma utf8_decode_cp (c : Z) (bs r : list Z) :
  utf8_encode_cp c = Some bs -> utf8_decode (bs ++ r) = option_map (cons c) (utf8_decode r).
Proof.
  unfold utf8_encode_cp. intros H.
  pose proof (Z.div_mod c 64 ltac:(lia)) as D1. pose proof (Z.mod_pos_bound c 64 ltac:(lia)) as B1.
  pose proof (Z.div_mod (c / 64) 64 ltac:(lia)) as D2.
  pose proof (Z.mod_pos_bound (c / 64) 64 ltac:(lia)) as B2.
  pose proof (Z.div_mod (c / 64 / 64) 64 ltac:(lia)) as D3.
  pose proof (Z.mod_pos_bound (c / 64 / 64) 64 ltac:(lia)) as B3.
  assert (E1 : c / 4096 = c / 64 / 64) by (rewrite Z.div_div by lia; reflexivity).
  assert (E2 : c / 262144 = c / 64 / 64 / 64) by (rewrite !Z.div_div by lia; reflexivity).
  rewrite E1, E2 in H.
  destruct (Z.ltb_spec c 0); [discriminate|].
  destruct (Z.ltb_spec c 128); [injection H as <-; cbn [app utf8_decode]; zcmp; reflexivity|].
  destruct (Z.ltb_spec c 2048).
  { injection H as <-. cbn [app utf8_decode]. unfold is_cont. zcmp. cbn [andb].
    do 2 f_equal. lia. }
  destruct (Z.ltb_spec c 65536).
  { destruct ((55296 <=? c) && (c <=? 57343)) eqn:Es; [discriminate|].
    injection H as <-. cbn [app utf8_decode]. unfold is_cont. zcmp. cbn [andb].
    match goal with |- context [cons ?x] => replace x with c by lia end.
    rewrite Es. reflexivity. }
  destruct (Z.ltb_spec c 1114112); [|discriminate].
  injection H as <-. cbn [app utf8_decode]. unfold is_cont. zcmp. cbn [andb].
  do 2 f_equal. lia.
Qed.

Lemma utf8_decode_encode (s b : list Z) : utf8_encode s = Some b -> utf8_decode b = Some s.
Proof.
  revert b. induction s as [|c s IH]; intros b H; cbn [utf8_encode] in H.
  - injection H as <-. reflexivity.
  - destruct (utf8_encode_cp c) as [bs|] eqn:Ec; [|discriminate].
    destruct (utf8_encode s) as [b'|]; [|discriminate].
    injection H as <-. rewrite (utf8_decode_cp c bs b' Ec), (IH b' eq_refl). reflexivity.
Qed.

Lemma utf8_encode_cp_ok (c : Z) : cp_ok c = true -> exists bs, utf8_encode_cp c = Some bs.
Proof.
  unfold cp_ok, wf_cp, utf8_encode_cp. intros H. zrefl.
  all: repeat match goal with
              | |- context [?a <? ?b] => destruct (Z.ltb_spec a b)
              | |- context [?a <=? ?b] => destruct (Z.leb_spec a b)
              end; cbn [andb]; try lia; eauto.
Qed.

Lemma utf8_encode_ok (s : list Z) :
  Forall (fun c => cp_ok c = true) s -> exists b, utf8_encode s = Some b.
Proof.
  intros H. induction H as [|c s Hc _ [b IH]]; [exists []; reflexivity|].
  destruct (utf8_encode_cp_ok c Hc) as [bs Ebs].
  exists (bs ++ b). cbn [utf8_encode]. rewrite Ebs, IH. reflexivity.
Qed.

(** ** The characters of [repr] are code points [str.encode()] accepts *)

Lemma cp_ok_ascii (c : Z) : 0 <= c < 128 -> cp_ok c = true.
Proof. intros H. unfold cp_ok, wf_cp. zcmp. reflexivity. Qed.

Lemma hexdig_cp (d : Z) : 0 <= d < 16 -> cp_ok (hexdig d) = true.
Proof. intros H. unfold hexdig. destruct (Z.ltb_spec d 10); apply cp_ok_ascii; lia. Qed.

Lemma hex_fixed_cp (k : nat) (n : Z) : Forall (fun x => cp_ok x = true) (hex_fixed k n).
Proof.
  induction k as [|k IH]; simpl; constructor; [|exact IH].
  apply hexdig_cp, Z.mod_pos_bound. lia.
Qed.

Lemma digit_chars_cp (ds : list Z) :
  Forall (fun d => 0 <= d < 10) ds -> Forall (fun x => cp_ok x = true) (digit_chars ds).
Proof.
  intros H. induction H as [|d ds Hd _ IH]; simpl; constructor; [|exact IH].
  apply cp_ok_ascii. lia.
Qed.

Lemma repeat48_cp (k : nat) : Forall (fun x => cp_ok x = true) (repeat 48 k).
Proof. induction k as [|k IH]; simpl; constructor; [reflexivity|exact IH]. Qed.

Lemma digits_cp (n : Z) : 0 <= n -> Forall (fun x => cp_ok x = true) (digit_chars (digits n)).
Proof. intros Hn. apply digit_chars_cp, (digits_spec n Hn). Qed.

Lemma repr_exponent_cp (x : Z) : Forall (fun c => cp_ok c = true) (repr_exponent x).
Proof.
  unfold repr_exponent. destruct (digits_spec (Z.abs x) ltac:(lia)) as (_ & Hd & _).
  constructor; [destruct (x <? 0); reflexivity|].
  apply digit_chars_cp. destruct (length (digits (Z.abs x)) <? 2)%nat; [|exact Hd].
  constructor; [lia|exact Hd].
Qed.

Ltac cp_parts :=
  repeat first
    [ apply repeat48_cp
    | apply hex_fixed_cp
    | apply repr_exponent_cp
    | apply List.Forall_nil
    | apply List.Forall_cons
    | apply Forall_app_2
    | reflexivity ].

Lemma repr_float_cp (f : pyfloat) :
  wf_float f = true -> Forall (fun c => cp_ok c = true) (repr_float f).
Proof.
  destruct f as [neg m e| |]; [|discriminate|discriminate]. cbn [wf_float]. intros H.
  apply andb_true_iff in H as [Hm _]. apply Z.leb_le in Hm.
  destruct (digits_spec m Hm) as (_ & Hd & _). cbn [repr_float].
  revert Hd. generalize (digits m). intros ds Hd. cbv zeta.
  assert (Hb : Forall (fun c => cp_ok c = true)
    (if (Z.of_nat (length ds) + e <=? -4) || (16 <? Z.of_nat (length ds) + e) then
       match ds with
       | d0 :: rest =>
           digit_chars [d0]
           ++ (match rest with [] => [] | _ => 46 :: digit_chars rest end)
           ++ 101 :: repr_exponent (Z.of_nat (length ds) + e - 1)
       | [] => []
       end
     else if Z.of_nat (length ds) + e <=? 0 then
       48 :: 46 :: repeat 48 (Z.to_nat (- (Z.of_nat (length ds) + e))) ++ digit_chars ds
     else if Z.of_nat (length ds) <=? Z.of_nat (length ds) + e then
       digit_chars ds ++ repeat 48 (Z.to_nat (Z.of_nat (length ds) + e - Z.of_nat (length ds)))
       ++ [46; 48]
     else
       digit_chars (firstn (Z.to_nat (Z.of_nat (length ds) + e)) ds) ++ 46
         :: digit_chars (skipn (Z.to_nat (Z.of_nat (length ds) + e)) ds))).
  { destruct (_ || _).
    - destruct ds as [|d0 rest]; [constructor|]. inversion Hd as [|? ? Hd0 Hrest]; subst.
      apply Forall_app_2; [apply digit_chars_cp; constructor; auto|].
      apply Forall_app_2; [destruct rest; [constructor|];
        constructor; [reflexivity|apply digit_chars_cp; exact Hrest]|].
      cp_parts.
    - destruct (_ <=? 0); [cp_parts; apply digit_chars_cp, Hd|].
      destruct (_ <=? _); cp_parts; apply digit_chars_cp;
        [exact Hd|apply Forall_take, Hd|apply Forall_drop, Hd]. }
  destruct neg; [constructor; [reflexivity|exact Hb]|exact Hb].
Qed.

Lemma forall_join_comma (P : Z -> Prop) (ls : list (list Z)) :
  P 44 -> P 32 -> Forall (Forall P) ls -> Forall P (join_comma ls).
Proof.
  intros H44 H32 H. induction H as [|x ls Hx Hls IH]; [constructor|].
  destruct ls as [|y ls]; [exact Hx|].
  change (join_comma (x :: y :: ls)) with (x ++ [44; 32] ++ join_comma (y :: ls)).
  apply Forall_app_2; [exact Hx|]. apply Forall_app_2; [repeat constructor; assumption|exact IH].
Qed.

Lemma repr_char_cp (ip : Z -> bool) (q c : Z) :
  no_surrogate_printable ip -> (q = 34 \/ q = 39) -> wf_cp c = true ->
  Forall (fun x => cp_ok x = true) (repr_char ip q c).
Proof.
  intros Hip Hq Hc. assert (Hb : 0 <= c <= 1114111) by (unfold wf_cp in Hc; zrefl; lia).
  unfold repr_char.
  repeat match goal with |- context [if ?b then _ else _] => destruct b eqn:? end;
    cp_parts; zrefl.
  all: try (apply cp_ok_ascii; lia).
  unfold cp_ok. rewrite Hc, Hip by assumption. reflexivity.
Qed.

Lemma repr_chars_cp (ip : Z -> bool) (q : Z) (s : list Z) :
  no_surrogate_printable ip -> (q = 34 \/ q = 39) -> forallb wf_cp s = true ->
  Forall (fun x => cp_ok x = true) (flat_map (repr_char ip q) s).
Proof.
  intros Hip Hq Hs. induction s as [|c s IH]; [constructor|].
  cbn [forallb] in Hs. apply andb_true_iff in Hs as [Hc Hs].
  cbn [flat_map]. apply Forall_app_2; [apply repr_char_cp; assumption|apply IH, Hs].
Qed.

Lemma forall_items_cp (ip : Z -> bool) (l : list pyval) :
  Forall (fun v => literal_ok v = true -> Forall (fun c => cp_ok c = true) (py_repr ip v)) l ->
  forallb literal_ok l = true ->
  Forall (Forall (fun c => cp_ok c = true)) (map (py_repr ip) l).
Proof.
  intros H Hok. apply List.Forall_map. rewrite forallb_forall in Hok.
  rewrite List.Forall_forall in H |- *. intros x Hx. apply H, Hok; exact Hx.
Qed.

Lemma repr_cp (ip : Z -> bool) (v : pyval) :
  no_surrogate_printable ip -> literal_ok v = true ->
  Forall (fun c => cp_ok c = true) (py_repr ip v).
Proof.
  intros Hip. revert v.
  apply (pyval_ind' (fun v => literal_ok v = true -> Forall (fun c => cp_ok c = true) (py_repr ip v))).
  - intros _. cbn. cp_parts.
  - intros b _. destruct b; cbn; cp_parts.
  - intros z _. cbn [py_repr]. unfold repr_int. destruct (Z.ltb_spec z 0).
    + constructor; [reflexivity|apply digits_cp; lia].
    + apply digits_cp. lia.
  - intros f Hf. apply repr_float_cp, Hf.
  - intros s Hs. cbn [literal_ok] in Hs. cbn [py_repr]. unfold repr_str.
    pose proof (repr_quote_cases s) as Hq.
    constructor; [destruct Hq as [-> | ->]; reflexivity|].
    apply Forall_app_2; [apply repr_chars_cp; assumption|].
    constructor; [destruct Hq as [-> | ->]; reflexivity|constructor].
  - intros l HQ Hok. cbn [literal_ok] in Hok. cbn [py_repr].
    constructor; [reflexivity|]. apply Forall_app_2; [|cp_parts].
    apply forall_join_comma; [reflexivity|reflexivity|apply forall_items_cp; assumption].
  - intros l HQ Hok. cbn [literal_ok] in Hok. pose proof (forall_items_cp ip l HQ Hok) as Hl.
    destruct l as [|x [|y l]].
    + cbn. cp_parts.
    + cbn [py_repr]. inversion Hl as [|? ? Hx _]; subst.
      constructor; [reflexivity|]. apply Forall_app_2; [exact Hx|cp_parts].
    + change (py_repr ip (PTuple (x :: y :: l)))
        with (40 :: join_comma (map (py_repr ip) (x :: y :: l)) ++ [41]).
      constructor; [reflexivity|]. apply Forall_app_2; [|cp_parts].
      apply forall_join_comma; [reflexivity|reflexivity|exact Hl].
  - intros d HQ Hok. cbn [literal_ok] in Hok. apply andb_true_iff in Hok as [Hok _].
    cbn [py_repr]. constructor; [reflexivity|]. apply Forall_app_2; [|cp_parts].
    apply forall_join_comma; [reflexivity|reflexivity|].
    apply List.Forall_map. rewrite forallb_forall in Hok.
    rewrite List.Forall_forall in HQ |- *. intros [k x] Hkx.
    destruct (HQ (k, x) Hkx) as [Q1 Q2]. specialize (Hok (k, x) Hkx).
    cbn [fst snd] in *. apply andb_true_iff in Hok as [Hok H2]. apply andb_true_iff in Hok as [_ H1].
    apply Forall_app_2; [apply Q1, H1|]. apply Forall_app_2; [cp_parts|apply Q2, H2].
  - intros d Hd. discriminate.
Qed.

(** ** Keys a method leaves alone *)


Lemma preserves_ret {A} k (a : A) : preserves k (ret a).
Proof. intros st. reflexivity. Qed.
Lemma preserves_raise {A} k e : preserves k (@raise A e).
Proof. intros st. reflexivity. Qed.
Lemma preserves_lift {A} k (r : res A) : preserves k (lift r).
Proof. intros st. reflexivity. Qed.
Lemma preserves_get k k' : preserves k (redis_get k').
Proof. intros st. reflexivity. Qed.
Lemma preserves_set k k' v : k' <> k -> preserves k (redis_set k' v).
Proof. intros H st. cbn. apply lookup_insert_ne. exact H. Qed.
Lemma preserves_bind {A B} k (m : M A) (f : A -> M B) :
  preserves k m -> (forall a, preserves k (f a)) -> preserves k (mbind m f).
Proof.
  intros Hm Hf st. unfold mbind. specialize (Hm st).
  destruct (m st) as [st' [a|e]]; cbn in *; [rewrite Hf|]; exact Hm.
Qed.

Ltac pres :=
  repeat first
    [ apply preserves_bind; intros
    | apply preserves_ret | apply preserves_raise | apply preserves_lift
    | apply preserves_get
    | apply preserves_set; assumption
    | match goal with
      | |- preserves _ (match ?x with _ => _ end) => destruct x
      | |- preserves _ (if ?b then _ else _) => destruct b
      end ].

Lemma string_length_app (s t : string) :
  String.length (s +:+ t) = (String.length s + String.length t)%nat.
Proof. induction s as [|a s IH]; simpl; [reflexivity|]. rewrite IH. reflexivity. Qed.

Lemma index_key_ne (d : CacheDefinition) (k : string) : index_key (mkDefinitionIndex d k) <> k.
Proof.
  unfold index_key. cbn. intros H. apply (f_equal String.length) in H.
  rewrite string_length_app in H. simpl in H. lia.
Qed.

Lemma create_preserves P d k : preserves k (create P (mkDefinitionIndex d k)).
Proof. pose proof (index_key_ne d k). unfold create. pres. Qed.

Lemma update_preserves P d k v : preserves k (update P (mkDefinitionIndex d k) v).
Proof. pose proof (index_key_ne d k). unfold update. pres. Qed.

Lemma has_index_preserves d k : preserves k (has_index (mkDefinitionIndex d k)).
Proof. unfold has_index. pres. Qed.

(** ** Runs of the monad *)

Lemma mbind_ok {A B} (m : M A) (f : A -> M B) (st st' : store) (b : B) :
  mbind m f st = (st', Ok b) -> exists st1 a, m st = (st1, Ok a) /\ f a st1 = (st', Ok b).
Proof.
  unfold mbind. destruct (m st) as [st1 [a|e]]; [eauto|discriminate].
Qed.

Lemma mbind_err {A B} (m : M A) (f : A -> M B) (st st' : store) (e : exc) :
  m st = (st', Err e) -> mbind m f st = (st', Err e).
Proof. unfold mbind. intros ->. reflexivity. Qed.

Lemma mbind_step {A B} (m : M A) (f : A -> M B) (st st1 : store) (a : A) :
  m st = (st1, Ok a) -> mbind m f st = f a st1.
Proof. unfold mbind. intros ->. reflexivity. Qed.

Lemma unpack_state P o name st : (_unpack P o name st).1 = st.
Proof.
  unfold _unpack. destruct (lookup_def o name); [|reflexivity].
  cbn. destruct (st !! name) as [[|b bs]|]; reflexivity.
Qed.

Lemma push_tail_preserves P d name (cache_state : pyval) :
  preserves name
    (hi <-- has_index (mkDefinitionIndex d name) ;;
     if negb hi then
       creation <-- create P (mkDefinitionIndex d name) ;;
       if negb creation then raise ExcIndexCreation else ret true
     else
       has_updated <-- update P (mkDefinitionIndex d name) cache_state ;;
       if negb has_updated then raise ExcDefinitionUpdate else ret true).
Proof.
  apply preserves_bind; [apply has_index_preserves|]. intros hi.
  destruct (negb hi); (apply preserves_bind; [apply create_preserves || apply update_preserves|]);
    intros a; destruct (negb a); pres.
Qed.

(** What a successful [push] wrote under the cache key. *)
Lemma push_ok_stored P o name d kvals st st' b :
  lookup_def o name = Some d ->
  push P o name kvals st = (st', Ok b) ->
  exists cs app cs' blob,
    _unpack P o name st = (st, Ok cs) /\
    push_fields (cd_repr d) kvals (_dict d) = Ok app /\
    py_append (if truthy cs then cs else PList []) (PDict app) = Ok cs' /\
    serialize_dict P cs' false = Ok blob /\
    st' !! name = Some blob.
Proof.
  intros Hd H. unfold push in H. rewrite Hd in H.
  apply mbind_ok in H as (st1 & cs & Hu & H).
  pose proof (unpack_state P o name st) as Hs. rewrite Hu in Hs. cbn in Hs. subst st1.
  apply mbind_ok in H as (st2 & app & Hf & H). injection Hf as <- Hf.
  apply mbind_ok in H as (st3 & cs' & Ha & H). injection Ha as <- Ha.
  apply mbind_ok in H as (st4 & blob & Hb & H). injection Hb as <- Hb.
  apply mbind_ok in H as (st5 & [] & Hw & H). injection Hw as <-.
  exists cs, app, cs', blob. repeat split; try assumption.
  pose proof (push_tail_preserves P d name cs' (<[name:=blob]> st)) as Hp.
  rewrite H in Hp. cbn in Hp. rewrite Hp. apply lookup_insert_eq.
Qed.

(** ** What [all] reads back after a [push] *)

Lemma literal_eval_list (r : list Z) (v : pyval) :
  literal_eval (91 :: r) = Some v -> exists vs, v = PList vs.
Proof.
  unfold literal_eval. cbn [length]. rewrite Nat.mul_succ_r, Nat.add_succ_r.
  rewrite parse_value_list. destruct (parse_seq _ 93 r) as [[vs r']|]; [|discriminate].
  destruct (forallb is_ws r'); [|discriminate]. intros [= <-]. eauto.
Qed.

Lemma deserialize_serialized_list P l blob :
  serialize_dict P (PList l) false = Ok blob ->
  blob <> [] /\ forall v, deserialize_dict P blob false = Ok v -> exists vs, v = PList vs.
Proof.
  unfold serialize_dict. destruct (utf8_encode (py_str P (PList l))) as [b|] eqn:E; [|discriminate].
  intros [= <-]. apply utf8_decode_encode in E.
  unfold py_str in E. cbn [py_repr] in E. split.
  - intros ->. discriminate.
  - intros v. unfold deserialize_dict. cbn [rbind]. rewrite E. cbn [rbind].
    destruct (literal_eval _) as [v'|] eqn:Ev; [|discriminate]. intros [= <-].
    exact (literal_eval_list _ _ Ev).
Qed.

Lemma push_ok_stored_list P o name d kvals st st' b :
  lookup_def o name = Some d ->
  push P o name kvals st = (st', Ok b) ->
  exists l blob, serialize_dict P (PList l) false = Ok blob /\ st' !! name = Some blob /\ l <> [].
Proof.
  intros Hd H. destruct (push_ok_stored P o name d kvals st st' b Hd H)
    as (cs & app & cs' & blob & _ & _ & Ha & Hs & Hst).
  destruct (if truthy cs then cs else PList []) as [| | | | |l0| | |] eqn:Ec; try discriminate.
  cbn in Ha. injection Ha as <-. exists (l0 ++ [PDict app]), blob. repeat split; try assumption.
  destruct l0; discriminate.
Qed.

(** [search] on a collection blob that is a serialised non-empty list. *)
Lemma search_stored_list P o name d q st l blob :
  lookup_def o name = Some d ->
  serialize_dict P (PList l) false = Ok blob -> st !! name = Some blob -> l <> [] ->
  exists e, search P o name q st = (st, Err e).
Proof.
  intros Hd Hs Hst Hl. destruct (deserialize_serialized_list P l blob Hs) as [Hne Hv].
  unfold search. rewrite Hd.
  assert (Hall : all P o name st = (st, deserialize_dict P blob false)).
  { unfold all. rewrite Hd. unfold mbind, redis_get. rewrite Hst.
    destruct blob; [congruence|reflexivity]. }
  unfold mbind at 1. rewrite Hall.
  destruct (deserialize_dict P blob false) as [v|e] eqn:Ed; [|eauto].
  destruct (Hv v eq_refl) as [vs ->].
  destruct vs as [|x vs]; cbn; eauto.
Qed.

Lemma search_after_push P o name d kvals q st st' b :
  lookup_def o name = Some d ->
  push P o name kvals st = (st', Ok b) ->
  exists e, search P o name q st' = (st', Err e).
Proof.
  intros Hd H. destruct (push_ok_stored_list P o name d kvals st st' b Hd H) as (l & blob & Hs & Hst & Hl).
  exact (search_stored_list P o name d q st' l blob Hd Hs Hst Hl).
Qed.

(** ** [create] and [get] on a stored non-empty list *)

Lemma create_stored_list P di st b x l :
  bytes_truthy (st !! index_key di) = false ->
  st !! di_cache_key di = Some b -> b <> [] ->
  deserialize_dict P b false = Ok (PList (x :: l)) ->
  create P di st = (st, Err AttributeError).
Proof.
  intros Hi Hst Hb Hd. unfold create, mbind, redis_get. rewrite Hi. cbn [negb].
  rewrite Hst. destruct b as [|b0 bs]; [congruence|]. unfold lift. rewrite Hd. reflexivity.
Qed.

Lemma get_stored_list P o name d st b x l :
  lookup_def o name = Some d ->
  st !! name = Some b -> b <> [] ->
  deserialize_dict P b (is_compressed o) = Ok (PList (x :: l)) ->
  get P o name st = (st, Err AttributeError).
Proof.
  intros Hd Hst Hb Hdes. unfold get. rewrite Hd.
  assert (Hu : _unpack P o name st = (st, Ok (PList (x :: l)))).
  { unfold _unpack. rewrite Hd. unfold mbind, redis_get. rewrite Hst.
    destruct b as [|b0 bs]; [congruence|]. unfold lift. rewrite Hdes. reflexivity. }
  unfold mbind at 1. rewrite Hu. reflexivity.
Qed.

(** ** A rejected field leaves the store alone *)


Lemma push_fields_mismatch def_repr kvals app :
  Forall (fun kv => field_type def_repr kv.1 <> None) kvals ->
  Exists (fun kv => exists t, field_type def_repr kv.1 = Some t /\ isinstance kv.2 t = false) kvals ->
  exists k, push_fields def_repr kvals app = Err (ExcTypeMismatch k).
Proof.
  intros Hall Hex. revert app. induction Hall as [|[key v] r Hk Hr IH]; intros app;
    [inversion Hex|].
  cbn [push_fields]. unfold field_type in Hk. cbn [fst] in Hk.
  destruct (find _ def_repr) as [[k' t]|] eqn:Ef; [|contradiction].
  destruct (isinstance v t) eqn:Ei; cbn [negb]; [|eauto].
  apply IH. inversion Hex as [? ? (t' & Ht & Hi)|? ? Hr']; subst; [|exact Hr'].
  unfold field_type in Ht. cbn [fst snd] in Ht, Hi. rewrite Ef in Ht. injection Ht as <-. congruence.
Qed.

Lemma push_fields_error P o name d kvals st cs e :
  lookup_def o name = Some d ->
  _unpack P o name st = (st, Ok cs) ->
  push_fields (cd_repr d) kvals (_dict d) = Err e ->
  push P o name kvals st = (st, Err e).
Proof.
  intros Hd Hu Hf. unfold push. rewrite Hd. erewrite mbind_step by exact Hu.
  unfold mbind at 1, lift. rewrite Hf. reflexivity.
Qed.

(** ** The record [push] builds *)

Lemma py_eq_str (k : pyval) (a : list Z) : py_eq k (PStr a) = true <-> k = PStr a.
Proof.
  destruct k; cbn; split; intros H; try discriminate; try (destruct b; discriminate).
  - f_equal. apply bool_decide_eq_true in H. exact H.
  - injection H as ->. apply bool_decide_eq_true. reflexivity.
Qed.

Lemma py_eq_str_str (a b : list Z) : py_eq (PStr a) (PStr b) = bool_decide (a = b).
Proof. reflexivity. Qed.

Lemma dict_set_str_keys (d : list (pyval * pyval)) (a : list Z) (v : pyval) :
  In (PStr a) (map fst d) -> map fst (dict_set d (PStr a) v) = map fst d.
Proof.
  induction d as [|[k' v'] r IH]; cbn; [tauto|]. intros H.
  destruct (py_eq k' (PStr a)) eqn:E; cbn; [reflexivity|].
  rewrite IH; [reflexivity|]. destruct H as [->|H]; [|exact H].
  rewrite py_eq_str_str in E. rewrite bool_decide_eq_true_2 in E by reflexivity. discriminate.
Qed.

Lemma dict_get_set_str_eq (d : list (pyval * pyval)) (a : list Z) (v : pyval) :
  dict_get (dict_set d (PStr a) v) (PStr a) = Some v.
Proof.
  induction d as [|[k' v'] r IH]; cbn.
  - try rewrite py_eq_str_str; rewrite bool_decide_eq_true_2 by reflexivity. reflexivity.
  - destruct (py_eq k' (PStr a)) eqn:E; cbn; rewrite E; [reflexivity|exact IH].
Qed.

Lemma dict_get_set_str_ne (d : list (pyval * pyval)) (a b : list Z) (v : pyval) :
  a <> b -> dict_get (dict_set d (PStr a) v) (PStr b) = dict_get d (PStr b).
Proof.
  intros Hab. induction d as [|[k' v'] r IH]; cbn.
  - try rewrite py_eq_str_str; rewrite bool_decide_eq_false_2 by exact Hab. reflexivity.
  - destruct (py_eq k' (PStr a)) eqn:E; cbn.
    + apply py_eq_str in E as ->. try rewrite py_eq_str_str; rewrite bool_decide_eq_false_2 by exact Hab.
      reflexivity.
    + destruct (py_eq k' (PStr b)); [reflexivity|exact IH].
Qed.

Lemma dict_set_in (d : list (pyval * pyval)) (k v : pyval) (kv : pyval * pyval) :
  In kv (dict_set d k v) -> In kv d \/ kv.2 = v.
Proof.
  induction d as [|[k' v'] r IH]; cbn.
  - intros [<-|[]]. right. reflexivity.
  - destruct (py_eq k' k); cbn.
    + intros [<-|H]; [right; reflexivity|left; right; exact H].
    + intros [<-|H]; [left; left; reflexivity|]. destruct (IH H) as [H'|H']; [left; right|right]; exact H'.
Qed.


Lemma push_fields_step def_repr key v r app app' :
  push_fields def_repr ((key, v) :: r) app = Ok app' ->
  exists t, In (key, t) def_repr /\ isinstance v t = true /\
    push_fields def_repr r (dict_set app (PStr key) (stored_value v)) = Ok app'.
Proof.
  cbn [push_fields]. destruct (find _ def_repr) as [[k' t]|] eqn:Ef; [|discriminate].
  apply find_some in Ef as [Hin Hk]. apply bool_decide_eq_true in Hk. cbn [fst] in Hk. subst k'.
  destruct (isinstance v t) eqn:Ei; cbn [negb]; [|discriminate].
  intros H. exists t. split; [exact Hin|split; [exact Ei|]]. destruct v; exact H.
Qed.

Lemma push_fields_keys def_repr kvals app app' :
  (forall kt, In kt def_repr -> In (PStr kt.1) (map fst app)) ->
  push_fields def_repr kvals app = Ok app' -> map fst app' = map fst app.
Proof.
  revert app. induction kvals as [|[key v] r IH]; intros app Hin H.
  - injection H as <-. reflexivity.
  - apply push_fields_step in H as (t & Ht & _ & H).
    assert (Hk : map fst (dict_set app (PStr key) (stored_value v)) = map fst app)
      by (apply dict_set_str_keys, (Hin (key, t) Ht)).
    rewrite (IH _ ltac:(intros kt Hkt; rewrite Hk; apply Hin, Hkt) H). exact Hk.
Qed.

Lemma push_fields_other def_repr kvals app app' k :
  push_fields def_repr kvals app = Ok app' -> ~ In k (map fst kvals) ->
  dict_get app' (PStr k) = dict_get app (PStr k).
Proof.
  revert app. induction kvals as [|[key v] r IH]; intros app H Hk.
  - injection H as <-. reflexivity.
  - apply push_fields_step in H as (t & _ & _ & H). cbn in Hk.
    rewrite (IH _ H ltac:(tauto)). apply dict_get_set_str_ne. intros ->. tauto.
Qed.

Lemma push_fields_supplied def_repr kvals app app' k v :
  push_fields def_repr kvals app = Ok app' -> NoDup (map fst kvals) -> In (k, v) kvals ->
  dict_get app' (PStr k) = Some (stored_value v).
Proof.
  revert app. induction kvals as [|[key w] r IH]; intros app H Hnd Hin; [destruct Hin|].
  apply push_fields_step in H as (t & _ & _ & H). inversion Hnd as [|? ? Hnot Hnd']; subst.
  destruct Hin as [Heq|Hin].
  - injection Heq as -> ->. rewrite list_elem_of_In in Hnot.
    rewrite (push_fields_other _ _ _ _ _ H Hnot).
    apply dict_get_set_str_eq.
  - exact (IH _ H Hnd' Hin).
Qed.

Lemma push_fields_values def_repr kvals app app' (Q : pyval -> Prop) :
  Forall (fun kv => Q (stored_value kv.2)) kvals -> Forall (fun kv => Q kv.2) app ->
  push_fields def_repr kvals app = Ok app' -> Forall (fun kv => Q kv.2) app'.
Proof.
  intros HQ. revert app. induction HQ as [|[key v] r Hv _ IH]; intros app Happ H.
  - injection H as <-. exact Happ.
  - apply push_fields_step in H as (t & _ & _ & H). refine (IH _ _ H).
    rewrite List.Forall_forall in Happ |- *. intros kv Hkv.
    destruct (dict_set_in _ _ _ _ Hkv) as [H' | ->]; [apply Happ, H'|exact Hv].
Qed.

Lemma dict_keys (d : CacheDefinition) : map fst (_dict d) = map (fun kt => PStr kt.1) (cd_repr d).
Proof. unfold _dict. rewrite map_map. apply map_ext. intros [k t]. reflexivity. Qed.

Lemma dict_get_dict (d : CacheDefinition) (k : list Z) :
  In k (map fst (cd_repr d)) -> dict_get (_dict d) (PStr k) = Some PNone.
Proof.
  unfold _dict. induction (cd_repr d) as [|[k' t] r IH]; cbn; [tauto|].
  try rewrite py_eq_str_str. intros H. destruct (bool_decide (k' = k)) eqn:E; [reflexivity|].
  apply bool_decide_eq_false in E. apply IH. destruct H as [->|H]; [congruence|exact H].
Qed.

Lemma stored_value_not_datetime (v : pyval) (dt : datetime) : stored_value v <> PDatetime dt.
Proof. destruct v; discriminate. Qed.

(** ** The records of a collection read back *)


Lemma forallb_wf_cp_digits (ds : list Z) :
  Forall (fun d => 0 <= d < 10) ds -> forallb wf_cp (digit_chars ds) = true.
Proof.
  intros H. induction H as [|d ds Hd _ IH]; [reflexivity|].
  change (digit_chars (d :: ds)) with (48 + d :: digit_chars ds). cbn [forallb]. rewrite IH.
  unfold wf_cp. zcmp. reflexivity.
Qed.

Lemma pad_wf_cp (k : nat) (n : Z) : 0 <= n -> forallb wf_cp (pad k n) = true.
Proof.
  intros Hn. unfold pad. rewrite forallb_app. apply andb_true_intro. split.
  - induction (k - _)%nat as [|j IH]; [reflexivity|]. cbn. rewrite IH. reflexivity.
  - apply forallb_wf_cp_digits, (digits_spec n Hn).
Qed.

Lemma strftime_wf_cp (dt : datetime) :
  valid_datetime dt = true -> forallb wf_cp (strftime_canonical dt) = true.
Proof.
  unfold valid_datetime. intros H. zrefl. unfold strftime_canonical.
  rewrite !forallb_app, !pad_wf_cp by lia. reflexivity.
Qed.

Lemma dval_bound (ds : list Z) :
  Forall (fun d => 0 <= d < 10) ds -> 0 <= dval ds < 10 ^ Z.of_nat (length ds).
Proof.
  intros H. induction H as [|x ys Hx _ IH]; [cbn; lia|].
  rewrite dval_cons. cbn [length]. rewrite Nat2Z.inj_succ, Z.pow_succ_r by lia.
  pose proof (Z.pow_pos_nonneg 10 (Z.of_nat (length ys)) ltac:(lia) ltac:(lia)). nia.
Qed.

(** From the year 1000 on, [%Y] has four digits without padding. *)
Lemma pad_year_wide (n : Z) : 1000 <= n -> pad 1 n = pad 4 n.
Proof.
  intros Hn. destruct (digits_spec n ltac:(lia)) as (Hv & Hd & _).
  pose proof (dval_bound _ Hd) as Hb. rewrite Hv in Hb.
  assert (Hl : (4 <= length (digits n))%nat).
  { destruct (Nat.le_gt_cases 4 (length (digits n))) as [?|Hlt]; [assumption|].
    assert (10 ^ Z.of_nat (length (digits n)) <= 10 ^ 3) by (apply Z.pow_le_mono_r; lia).
    lia. }
  unfold pad. rewrite digit_chars_length.
  replace (1 - length (digits n))%nat with O by lia.
  replace (4 - length (digits n))%nat with O by lia. reflexivity.
Qed.

Lemma strftime_iso (dt : datetime) : 1000 <= dt_year dt -> strftime_canonical dt = iso_timestamp dt.
Proof. intros H. unfold strftime_canonical, iso_timestamp. rewrite pad_year_wide by exact H. reflexivity. Qed.

Lemma stored_value_ok (v : pyval) : field_value_ok v = true -> literal_ok (stored_value v) = true.
Proof.
  destruct v; cbn [field_value_ok stored_value]; try tauto.
  intros H. cbn [literal_ok]. apply strftime_wf_cp, H.
Qed.

Lemma keys_distinct_keys (d1 d2 : list (pyval * pyval)) :
  map fst d1 = map fst d2 -> keys_distinct d1 = keys_distinct d2.
Proof.
  revert d2. induction d1 as [|[k1 v1] r1 IH]; intros [|[k2 v2] r2] H; try discriminate; [reflexivity|].
  cbn in H. injection H as -> Hr. cbn. rewrite (IH r2 Hr). f_equal.
  clear IH. revert r2 Hr. induction r1 as [|[k v] r1 IH]; intros [|[k' v'] r2] Hr; try discriminate;
    [reflexivity|]. cbn in Hr. injection Hr as -> Hr. cbn. rewrite (IH r2 Hr). reflexivity.
Qed.

Lemma keys_distinct_dict (d : CacheDefinition) :
  NoDup (map fst (cd_repr d)) -> keys_distinct (_dict d) = true.
Proof.
  unfold _dict. induction (cd_repr d) as [|[k t] r IH]; intros Hnd; [reflexivity|].
  cbn in Hnd. inversion Hnd as [|? ? Hnot Hnd']; subst. rewrite list_elem_of_In in Hnot.
  cbn. rewrite (IH Hnd'), andb_true_r. apply forallb_forall. intros [k' v'] Hin.
  apply in_map_iff in Hin as ([k'' t'] & Heq & Hin). injection Heq as <- <-. cbn.
  try rewrite py_eq_str_str; rewrite bool_decide_eq_false_2; [reflexivity|].
  intros ->. apply Hnot. apply (in_map fst _ (k'', t') Hin).
Qed.

Lemma record_literal_ok (d : CacheDefinition) (kvals : list (list Z * pyval)) app :
  NoDup (map fst (cd_repr d)) -> Forall (fun k => forallb wf_cp k = true) (map fst (cd_repr d)) ->
  Forall (fun kv => field_value_ok kv.2 = true) kvals ->
  push_fields (cd_repr d) kvals (_dict d) = Ok app -> literal_ok (PDict app) = true.
Proof.
  intros Hnd Hnames Hvals H.
  assert (Hk : map fst app = map fst (_dict d)).
  { refine (push_fields_keys _ _ _ _ _ H). intros kt Hkt. rewrite dict_keys.
    apply (in_map (fun kt => PStr kt.1)), Hkt. }
  assert (Hv : Forall (fun kv => literal_ok kv.2 = true) app).
  { refine (push_fields_values _ _ _ _ (fun v => literal_ok v = true) _ _ H).
    - rewrite List.Forall_forall in Hvals |- *. intros kv Hkv. apply stored_value_ok, Hvals, Hkv.
    - unfold _dict. rewrite List.Forall_forall. intros kv Hkv.
      apply in_map_iff in Hkv as ([k t] & <- & _). reflexivity. }
  cbn [literal_ok]. rewrite (keys_distinct_keys _ _ Hk), keys_distinct_dict by exact Hnd.
  rewrite andb_true_r. apply forallb_forall. intros [k v] Hkv.
  rewrite List.Forall_forall in Hv. rewrite (Hv _ Hkv). cbn [snd fst]. rewrite andb_true_r.
  assert (Hin : In k (map fst (_dict d))) by (rewrite <- Hk; apply (in_map fst _ _ Hkv)).
  rewrite dict_keys in Hin. apply in_map_iff in Hin as ([k' t] & <- & Hin). cbn.
  rewrite List.Forall_forall in Hnames. apply (Hnames k'). apply (in_map fst _ _ Hin).
Qed.

Lemma deserialize_serialize P v blob :
  literal_ok v = true -> serialize_dict P v false = Ok blob -> deserialize_dict P blob false = Ok v.
Proof.
  intros Hv. unfold serialize_dict. destruct (utf8_encode (py_str P v)) as [b|] eqn:E; [|discriminate].
  intros [= <-]. unfold deserialize_dict. cbn [rbind]. rewrite (utf8_decode_encode _ _ E). cbn [rbind].
  unfold py_str. rewrite literal_eval_repr by exact Hv. reflexivity.
Qed.


Lemma unpack_coll P o name d st recs :
  lookup_def o name = Some d -> is_compressed o = false -> coll_state P name st recs ->
  _unpack P o name st = (st, Ok (match recs with [] => PBool false | _ => PList (map PDict recs) end)).
Proof.
  intros Hd Hc Hs. unfold _unpack. rewrite Hd. unfold mbind, redis_get. destruct recs as [|r recs].
  - cbn in Hs. rewrite Hs. reflexivity.
  - destruct Hs as (blob & Hst & Hne & Hdes). rewrite Hst. destruct blob as [|b0 bs]; [congruence|].
    unfold lift. rewrite Hc, Hdes. reflexivity.
Qed.

Lemma push_coll P o name d kvals st st' b recs :
  lookup_def o name = Some d -> is_compressed o = false ->
  NoDup (map fst (cd_repr d)) -> Forall (fun k => forallb wf_cp k = true) (map fst (cd_repr d)) ->
  Forall (fun kv => field_value_ok kv.2 = true) kvals ->
  Forall (fun r => literal_ok (PDict r) = true) recs ->
  coll_state P name st recs ->
  push P o name kvals st = (st', Ok b) ->
  exists app, push_fields (cd_repr d) kvals (_dict d) = Ok app /\
    literal_ok (PDict app) = true /\ coll_state P name st' (recs ++ [app]).
Proof.
  intros Hd Hc Hnd Hnames Hvals Hrecs Hs H.
  destruct (push_ok_stored P o name d kvals st st' b Hd H)
    as (cs & app & cs' & blob & Hu & Hf & Ha & Hser & Hst).
  pose proof (record_literal_ok d kvals app Hnd Hnames Hvals Hf) as Happ.
  exists app. split; [exact Hf|]. split; [exact Happ|].
  rewrite (unpack_coll P o name d st recs Hd Hc Hs) in Hu. injection Hu as <-.
  assert (Hcs' : cs' = PList (map PDict (recs ++ [app]))).
  { destruct recs as [|r recs]; cbn in Ha; injection Ha as <-; [reflexivity|].
    rewrite map_app. reflexivity. }
  subst cs'. destruct (deserialize_serialized_list P _ blob Hser) as [Hne _].
  assert (Hok : literal_ok (PList (map PDict (recs ++ [app]))) = true).
  { cbn [literal_ok]. apply forallb_forall. intros x Hx. apply in_map_iff in Hx as (r & <- & Hr).
    apply in_app_or in Hr as [Hr|[<-|[]]]; [|exact Happ].
    rewrite List.Forall_forall in Hrecs. apply Hrecs, Hr. }
  destruct (recs ++ [app]) as [|r0 rs] eqn:E; [destruct recs; discriminate|].
  exists blob. split; [exact Hst|]. split; [exact Hne|].
  apply deserialize_serialize; assumption.
Qed.

Lemma pushes_coll P o name d kvss st st' bs recs :
  lookup_def o name = Some d -> is_compressed o = false ->
  NoDup (map fst (cd_repr d)) -> Forall (fun k => forallb wf_cp k = true) (map fst (cd_repr d)) ->
  Forall (fun kvals => Forall (fun kv => field_value_ok kv.2 = true) kvals) kvss ->
  Forall (fun r => literal_ok (PDict r) = true) recs ->
  coll_state P name st recs ->
  pushes P o name kvss st = (st', Ok bs) ->
  exists recs', rmap (fun kvals => push_fields (cd_repr d) kvals (_dict d)) kvss = Ok recs' /\
    coll_state P name st' (recs ++ recs').
Proof.
  intros Hd Hc Hnd Hnames Hvals. revert st recs bs.
  induction Hvals as [|kvals kvss Hkv _ IH]; intros st recs bs Hrecs Hs H.
  - cbn in H. injection H as <- _. exists []. rewrite app_nil_r. split; [reflexivity|exact Hs].
  - cbn [pushes] in H. apply mbind_ok in H as (st1 & b & Hp & H).
    apply mbind_ok in H as (st2 & bs' & Hps & H). injection H as <- _.
    destruct (push_coll P o name d kvals st st1 b recs Hd Hc Hnd Hnames Hkv Hrecs Hs Hp)
      as (app & Hf & Happ & Hs1).
    assert (Hrecs1 : Forall (fun r => literal_ok (PDict r) = true) (recs ++ [app]))
      by (apply Forall_app_2; [exact Hrecs|constructor; [exact Happ|constructor]]).
    destruct (IH st1 (recs ++ [app]) bs' Hrecs1 Hs1 Hps) as (recs' & Hr & Hs2).
    exists (app :: recs'). cbn [rmap]. rewrite Hf. cbn [rbind]. rewrite Hr. cbn [rbind].
    split; [reflexivity|]. rewrite <- app_assoc in Hs2. exact Hs2.
Qed.

Lemma all_coll P o name d st recs :
  lookup_def o name = Some d -> coll_state P name st recs ->
  all P o name st = (st, Ok (match recs with [] => PDict [] | _ => PList (map PDict recs) end)).
Proof.
  intros Hd Hs. unfold all. rewrite Hd. unfold mbind, redis_get. destruct recs as [|r recs].
  - cbn in Hs. rewrite Hs. reflexivity.
  - destruct Hs as (blob & Hst & Hne & Hdes). rewrite Hst. destruct blob as [|b0 bs]; [congruence|].
    unfold lift. rewrite Hdes. reflexivity.
Qed.

Lemma pushes_all P o name d kvss st st' bs :
  lookup_def o name = Some d -> is_compressed o = false ->
  NoDup (map fst (cd_repr d)) -> Forall (fun k => forallb wf_cp k = true) (map fst (cd_repr d)) ->
  Forall (fun kvals => Forall (fun kv => field_value_ok kv.2 = true) kvals) kvss ->
  st !! name = None ->
  pushes P o name kvss st = (st', Ok bs) ->
  exists recs, rmap (fun kvals => push_fields (cd_repr d) kvals (_dict d)) kvss = Ok recs /\
    all P o name st' = (st', Ok (match recs with [] => PDict [] | _ => PList (map PDict recs) end)).
Proof.
  intros Hd Hc Hnd Hnames Hvals Hst H.
  destruct (pushes_coll P o name d kvss st st' bs [] Hd Hc Hnd Hnames Hvals
              ltac:(constructor) Hst H) as (recs & Hr & Hs).
  exists recs. split; [exact Hr|]. exact (all_coll P o name d st' recs Hd Hs).
Qed.

Lemma codec_roundtrip P v compress :
  no_surrogate_printable (py_isprintable P) ->
  (forall b, zlib_decompress P (zlib_compress P b) = Some b) ->
  literal_ok v = true ->
  exists blob, serialize_dict P v compress = Ok blob /\ deserialize_dict P blob compress = Ok v.
Proof.
  intros Hip Hz Hv. destruct (utf8_encode_ok _ (repr_cp _ v Hip Hv)) as [b Hb].
  exists (if compress then zlib_compress P b else b). unfold serialize_dict, py_str. rewrite Hb.
  split; [reflexivity|]. unfold deserialize_dict.
  assert (Hd : (if compress then
                  match zlib_decompress P (if compress then zlib_compress P b else b) with
                  | Some b' => Ok b' | None => Err ZlibError end
                else Ok (if compress then zlib_compress P b else b)) = Ok b)
    by (destruct compress; [rewrite Hz|]; reflexivity).
  rewrite Hd. cbn [rbind]. rewrite (utf8_decode_encode _ _ Hb). cbn [rbind].
  rewrite literal_eval_repr by exact Hv. reflexivity.
Qed.

(** ** Facts about the examples and a successful [push] *)

Lemma ascii_printable_no_surrogate : no_surrogate_printable ascii_printable.
Proof.
  intros c H. unfold ascii_printable in H. apply andb_true_iff in H as [H1 H2].
  apply Z.ltb_lt in H2. apply andb_false_iff. left. apply Z.leb_gt. lia.
Qed.

Lemma example_platform_zlib b :
  zlib_decompress example_platform (zlib_compress example_platform b) = Some b.
Proof. reflexivity. Qed.

Lemma push_record_facts P o name d kvals st st' b :
  lookup_def o name = Some d ->
  push P o name kvals st = (st', Ok b) ->
  exists cs app cs' blob,
    _unpack P o name st = (st, Ok cs) /\
    push_fields (cd_repr d) kvals (_dict d) = Ok app /\
    py_append (if truthy cs then cs else PList []) (PDict app) = Ok cs' /\
    serialize_dict P cs' false = Ok blob /\
    st' !! name = Some blob.
Proof. apply push_ok_stored. Qed.

(** * Claims *)

(** C1: on the example of the specification, neither push returns normally from an empty
    store: both raise [AttributeError] (in [DefinitionIndex.create] the pair of [enumerate] is
    unpacked as [(cache_item, cache_idx)], so [.keys()] is called on an int). From a store that
    already holds an empty index, the first push succeeds and the second raises
    [AttributeError] in [DefinitionIndex.update]. In both cases the two searches raise
    [AttributeError] ([cache_state.keys()] on the stored list) instead of returning records. *)
Theorem C1_search_example (P : platform) :
  (let '(st1, r1) := push P orm "users" rec_a ∅ in
   let '(st2, r2) := push P orm "users" rec_b st1 in
   r1 = Err AttributeError /\ r2 = Err AttributeError /\
   (search P orm "users" [(cps "age", PInt 30)] st2).2 = Err AttributeError /\
   (search P orm "users" [(cps "email", PStr (cps "a@x.com"))] st2).2 = Err AttributeError) /\
  (let '(st1, r1) := push P orm "users" rec_a (with_index "users") in
   let '(st2, r2) := push P orm "users" rec_b st1 in
   r1 = Ok true /\ r2 = Err AttributeError /\
   (search P orm "users" [(cps "age", PInt 30)] st2).2 = Err AttributeError /\
   (search P orm "users" [(cps "email", PStr (cps "a@x.com"))] st2).2 = Err AttributeError).
Proof. split; vm_compute; auto. Qed.

(** C2: after any push that returns normally, [search] on the same name raises an
    exception and leaves the store unchanged: the collection is then a stored non-empty list,
    and [search] calls [cache_state.keys()] on it. *)
Theorem C2_search_after_push P o name d kvals q st st' b :
  lookup_def o name = Some d ->
  push P o name kvals st = (st', Ok b) ->
  exists e, search P o name q st' = (st', Err e).
Proof. intros Hd H. exact (search_after_push P o name d kvals q st st' b Hd H). Qed.

Lemma C2_search_after_push_witness :
  lookup_def orm "users" = Some users /\
  push example_platform orm "users" rec_a (with_index "users")
    = ((push example_platform orm "users" rec_a (with_index "users")).1, Ok true) /\
  exists e, search example_platform orm "users" [(cps "age", PInt 30)]
              (push example_platform orm "users" rec_a (with_index "users")).1
            = ((push example_platform orm "users" rec_a (with_index "users")).1, Err e).
Proof.
  split; [reflexivity|]. split; [vm_compute; reflexivity|].
  refine (C2_search_after_push example_platform orm "users" users rec_a [(cps "age", PInt 30)]
    (with_index "users") _ true eq_refl _).
  vm_compute. reflexivity.
Defined.

(** C3: when no index exists and the collection is a stored non-empty list, [create] does
    not build the index: it raises [AttributeError] and writes nothing, because the loop
    [for cache_item, cache_idx in enumerate(cache)] binds [cache_item] to the position. *)
Theorem C3_create_nonempty_raises P di st b x l :
  bytes_truthy (st !! index_key di) = false ->
  st !! di_cache_key di = Some b -> b <> [] ->
  deserialize_dict P b false = Ok (PList (x :: l)) ->
  create P di st = (st, Err AttributeError).
Proof. apply create_stored_list. Qed.

Lemma C3_create_nonempty_raises_witness :
  bytes_truthy (stored_a !! index_key (mkDefinitionIndex users "users")) = false /\
  stored_a !! di_cache_key (mkDefinitionIndex users "users")
    = Some (cps "[{'email': 'a@x.com', 'age': 30}]") /\
  cps "[{'email': 'a@x.com', 'age': 30}]" <> [] /\
  deserialize_dict example_platform (cps "[{'email': 'a@x.com', 'age': 30}]") false
    = Ok (PList [PDict rec_a_dict]) /\
  create example_platform (mkDefinitionIndex users "users") stored_a = (stored_a, Err AttributeError).
Proof.
  split; [vm_compute; reflexivity|]. split; [vm_compute; reflexivity|].
  split; [discriminate|]. split; [vm_compute; reflexivity|].
  refine (C3_create_nonempty_raises example_platform (mkDefinitionIndex users "users") stored_a
    (cps "[{'email': 'a@x.com', 'age': 30}]") (PDict rec_a_dict) [] _ _ _ _).
  - vm_compute. reflexivity.
  - vm_compute. reflexivity.
  - discriminate.
  - vm_compute. reflexivity.
Defined.

(** C4: [update] keys the index by the field name, not by the value: on the index [{}],
    updating with the one-record collection [[{'email': 'a@x.com', 'age': 30}]] writes the
    index [{'email': 'a@x.com', 'age': 30}]; a later update whose fields are already keys then
    calls [.append] on the stored string and raises [AttributeError]. *)
Theorem C4_update_keys_by_field (P : platform) :
  update P (mkDefinitionIndex users "users") (PList [PDict rec_a_dict]) (with_index "users")
  = (<["_idx_users" := cps "{'email': 'a@x.com', 'age': 30}"]> (with_index "users"), Ok true) /\
  (update P (mkDefinitionIndex users "users") (PList [PDict rec_a_dict; PDict rec_b_dict])
     (<["_idx_users" := cps "{'email': 'a@x.com', 'age': 30}"]> (with_index "users"))).2
  = Err AttributeError.
Proof. split; vm_compute; reflexivity. Qed.







(** C7 (counterexample): [True] for the [int] field [age] is accepted, since [bool] is a
    subclass of [int]: the push returns normally and writes the collection. *)
Lemma C7_bool_for_int_accepted :
  push example_platform orm "users" [(cps "email", PStr (cps "a@x.com")); (cps "age", PBool true)]
    (with_index "users")
  = (<["users" := cps "[{'email': 'a@x.com', 'age': True}]"]>
       (<["_idx_users" := cps "{'email': 'a@x.com', 'age': True}"]> (with_index "users")), Ok true).
Proof. vm_compute. reflexivity. Qed.

(** C7: when every supplied key is a field of the schema and some supplied value fails
    [isinstance] against its declared type, [push] raises the type-mismatch exception and
    leaves the whole store unchanged (provided reading the collection succeeds). *)
Theorem C7_type_mismatch_no_write P o name d kvals st cs :
  lookup_def o name = Some d ->
  _unpack P o name st = (st, Ok cs) ->
  Forall (fun kv => field_type (cd_repr d) kv.1 <> None) kvals ->
  Exists (fun kv => exists t, field_type (cd_repr d) kv.1 = Some t /\ isinstance kv.2 t = false) kvals ->
  exists k, push P o name kvals st = (st, Err (ExcTypeMismatch k)).
Proof.
  intros Hd Hu Hall Hex.
  destruct (push_fields_mismatch (cd_repr d) kvals (_dict d) Hall Hex) as [k Hk].
  exists k. exact (push_fields_error P o name d kvals st cs _ Hd Hu Hk).
Qed.

Lemma C7_type_mismatch_no_write_witness :
  exists k, push example_platform orm "users" [(cps "age", PStr (cps "thirty"))] (with_index "users")
    = (with_index "users", Err (ExcTypeMismatch k)).
Proof.
  refine (C7_type_mismatch_no_write example_platform orm "users" users
    [(cps "age", PStr (cps "thirty"))] (with_index "users") (PBool false) eq_refl _ _ _).
  - vm_compute. reflexivity.
  - constructor; [vm_compute; intros H; discriminate H|constructor].
  - constructor. exists TInt. split; vm_compute; reflexivity.
Defined.

(** C8: [get] on a name whose stored collection is a non-empty list raises [AttributeError]
    ([result_dict.keys()] on a list) instead of returning the decoded collection. *)
Theorem C8_get_stored_raises P o name d st b x l :
  lookup_def o name = Some d ->
  st !! name = Some b -> b <> [] ->
  deserialize_dict P b (is_compressed o) = Ok (PList (x :: l)) ->
  get P o name st = (st, Err AttributeError).
Proof. apply get_stored_list. Qed.

Lemma C8_get_stored_raises_witness :
  get example_platform orm "users" stored_a = (stored_a, Err AttributeError).
Proof.
  refine (C8_get_stored_raises example_platform orm "users" users stored_a
    (cps "[{'email': 'a@x.com', 'age': 30}]") (PDict rec_a_dict) [] eq_refl _ _ _).
  - vm_compute. reflexivity.
  - discriminate.
  - vm_compute. reflexivity.
Defined.

(** C9 (counterexample): the datetime [0005-01-02 03:04:05] pushed into [readings] is
    stored as ['5-01-02 03:04:05']: the push returns normally, but the year is not written
    in the four-digit form [YYYY]. *)
Lemma C9_short_year_unpadded :
  push example_platform orm "readings" [(cps "at", PDatetime early)] (with_index "readings")
    = ((push example_platform orm "readings" [(cps "at", PDatetime early)] (with_index "readings")).1,
       Ok true) /\
  (push example_platform orm "readings" [(cps "at", PDatetime early)] (with_index "readings")).1
    !! "readings" = Some (cps "[{'score': None, 'at': '5-01-02 03:04:05'}]") /\
  cps "5-01-02 03:04:05" <> iso_timestamp early.
Proof.
  split; [vm_compute; reflexivity|]. split; [vm_compute; reflexivity|].
  intros H. vm_compute in H. discriminate H.
Qed.

(** C9 (amended): after a push that returns normally, the record appended to the stored
    collection holds, for a supplied datetime [dt] (keys supplied once), the string
    [strftime_canonical dt] ([%Y-%m-%d %H:%M:%S], the year without leading zeros), which
    is the form [YYYY-MM-DD HH:MM:SS] from the year 1000 on; none of its values is a
    datetime. *)
Theorem C9_datetime_stored_as_string P o name d kvals st st' b k dt :
  lookup_def o name = Some d ->
  NoDup (map fst kvals) -> In (k, PDatetime dt) kvals ->
  push P o name kvals st = (st', Ok b) ->
  exists cs app cs' blob,
    _unpack P o name st = (st, Ok cs) /\
    push_fields (cd_repr d) kvals (_dict d) = Ok app /\
    py_append (if truthy cs then cs else PList []) (PDict app) = Ok cs' /\
    serialize_dict P cs' false = Ok blob /\
    st' !! name = Some blob /\
    dict_get app (PStr k) = Some (PStr (strftime_canonical dt)) /\
    (1000 <= dt_year dt -> dict_get app (PStr k) = Some (PStr (iso_timestamp dt))) /\
    Forall (fun kv => forall dt', kv.2 <> PDatetime dt') app.
Proof.
  intros Hd Hnd Hin H.
  destruct (push_record_facts P o name d kvals st st' b Hd H)
    as (cs & app & cs' & blob & Hu & Hf & Ha & Hs & Hst).
  exists cs, app, cs', blob. do 5 (split; [assumption|]).
  pose proof (push_fields_supplied _ _ _ _ k (PDatetime dt) Hf Hnd Hin) as Hk. cbn [stored_value] in Hk.
  split; [exact Hk|]. split.
  - intros Hy. rewrite Hk, strftime_iso by exact Hy. reflexivity.
  - refine (push_fields_values _ _ _ _ (fun v => forall dt', v <> PDatetime dt') _ _ Hf).
    + apply List.Forall_forall. intros kv _ dt'. apply stored_value_not_datetime.
    + unfold _dict. apply List.Forall_forall. intros kv Hkv dt'.
      apply in_map_iff in Hkv as ([k0 t0] & <- & _). cbn. discriminate.
Qed.

Lemma C9_datetime_stored_as_string_witness :
  exists cs app cs' blob,
    _unpack example_platform orm "readings" (with_index "readings") = (with_index "readings", Ok cs) /\
    push_fields (cd_repr readings) [(cps "at", PDatetime noon)] (_dict readings) = Ok app /\
    py_append (if truthy cs then cs else PList []) (PDict app) = Ok cs' /\
    serialize_dict example_platform cs' false = Ok blob /\
    (push example_platform orm "readings" [(cps "at", PDatetime noon)] (with_index "readings")).1
      !! "readings" = Some blob /\
    dict_get app (PStr (cps "at")) = Some (PStr (strftime_canonical noon)) /\
    (1000 <= dt_year noon -> dict_get app (PStr (cps "at")) = Some (PStr (iso_timestamp noon))) /\
    Forall (fun kv => forall dt', kv.2 <> PDatetime dt') app.
Proof.
  refine (C9_datetime_stored_as_string example_platform orm "readings" readings
    [(cps "at", PDatetime noon)] (with_index "readings") _ true (cps "at") noon eq_refl _ _ _).
  - apply (bool_decide_unpack _). vm_compute. reflexivity.
  - left. reflexivity.
  - vm_compute. reflexivity.
Defined.

(** C10: after a push that returns normally, the keys of the appended record are the
    declared fields of the schema, in declaration order, and every declared field not
    supplied to the push holds [None]. *)
Theorem C10_omitted_fields_none P o name d kvals st st' b :
  lookup_def o name = Some d ->
  push P o name kvals st = (st', Ok b) ->
  exists cs app cs' blob,
    _unpack P o name st = (st, Ok cs) /\
    push_fields (cd_repr d) kvals (_dict d) = Ok app /\
    py_append (if truthy cs then cs else PList []) (PDict app) = Ok cs' /\
    serialize_dict P cs' false = Ok blob /\
    st' !! name = Some blob /\
    map fst app = map (fun kt => PStr kt.1) (cd_repr d) /\
    (forall k, In k (map fst (cd_repr d)) -> ~ In k (map fst kvals) -> dict_get app (PStr k) = Some PNone).
Proof.
  intros Hd H.
  destruct (push_record_facts P o name d kvals st st' b Hd H)
    as (cs & app & cs' & blob & Hu & Hf & Ha & Hs & Hst).
  exists cs, app, cs', blob. do 5 (split; [assumption|]). split.
  - rewrite <- dict_keys. refine (push_fields_keys _ _ _ _ _ Hf).
    intros kt Hkt. rewrite dict_keys. exact (in_map (fun kt => PStr kt.1) _ _ Hkt).
  - intros k Hk Hnk. rewrite (push_fields_other _ _ _ _ k Hf Hnk). apply dict_get_dict, Hk.
Qed.

Lemma C10_omitted_fields_none_witness :
  exists cs app cs' blob,
    _unpack example_platform orm "users" (with_index "users") = (with_index "users", Ok cs) /\
    push_fields (cd_repr users) [(cps "email", PStr (cps "a@x.com"))] (_dict users) = Ok app /\
    py_append (if truthy cs then cs else PList []) (PDict app) = Ok cs' /\
    serialize_dict example_platform cs' false = Ok blob /\
    (push example_platform orm "users" [(cps "email", PStr (cps "a@x.com"))] (with_index "users")).1
      !! "users" = Some blob /\
    map fst app = map (fun kt => PStr kt.1) (cd_repr users) /\
    (forall k, In k (map fst (cd_repr users)) -> ~ In k (map fst [(cps "email", PStr (cps "a@x.com"))]) ->
       dict_get app (PStr k) = Some PNone).
Proof.
  refine (C10_omitted_fields_none example_platform orm "users" users
    [(cps "email", PStr (cps "a@x.com"))] (with_index "users") _ true eq_refl _).
  vm_compute. reflexivity.
Defined.

(** * Further properties of the code *)

Lemma read_only_ret {A} (a : A) : read_only (ret a).
Proof. intros st. reflexivity. Qed.
Lemma read_only_raise {A} e : read_only (@raise A e).
Proof. intros st. reflexivity. Qed.
Lemma read_only_lift {A} (r : res A) : read_only (lift r).
Proof. intros st. reflexivity. Qed.
Lemma read_only_get k : read_only (redis_get k).
Proof. intros st. reflexivity. Qed.
Lemma read_only_bind {A B} (m : M A) (f : A -> M B) :
  read_only m -> (forall a, read_only (f a)) -> read_only (mbind m f).
Proof.
  intros Hm Hf st. unfold mbind. specialize (Hm st).
  destruct (m st) as [st' [a|e]]; cbn in *; [rewrite Hf|]; exact Hm.
Qed.

Ltac ro :=
  repeat first
    [ apply read_only_bind; intros
    | apply read_only_ret | apply read_only_raise | apply read_only_lift
    | apply read_only_get
    | match goal with
      | |- read_only (match ?x with _ => _ end) => destruct x
      | |- read_only (if ?b then _ else _) => destruct b
      end ].

Lemma unpack_read_only P o name : read_only (_unpack P o name).
Proof. unfold _unpack. ro. Qed.
Lemma all_read_only P o name : read_only (all P o name).
Proof. unfold all. ro. Qed.
Lemma index_get_read_only P di : read_only (index_get P di).
Proof. unfold index_get. ro. Qed.
Lemma has_index_read_only di : read_only (has_index di).
Proof. unfold has_index. ro. Qed.

(** [get], [all], [search] and [_unpack] never write to the store. *)
Theorem orm_reads_read_only P o name q :
  read_only (get P o name) /\ read_only (all P o name) /\
  read_only (search P o name q) /\ read_only (_unpack P o name).
Proof.
  split; [|split; [apply all_read_only|split; [|apply unpack_read_only]]].
  - unfold get. ro. apply unpack_read_only.
  - unfold search. ro; first [apply all_read_only | apply index_get_read_only].
Qed.

(** [DefinitionIndex.has_index] and [DefinitionIndex.get] never write to the store. *)
Theorem index_reads_read_only P di : read_only (has_index di) /\ read_only (index_get P di).
Proof. split; [apply has_index_read_only|apply index_get_read_only]. Qed.

(** For a name with no registered definition, [get] and [_unpack] return [False], [all] and [search] raise their not-defined exceptions and [push] raises the unknown-cache-key exception, all without touching the store. *)
Theorem unregistered_name P o name kvals q st :
  lookup_def o name = None ->
  get P o name st = (st, Ok (PBool false)) /\
  _unpack P o name st = (st, Ok (PBool false)) /\
  all P o name st = (st, Err (ExcAllUnknownKey name)) /\
  search P o name q st = (st, Err (ExcNotDefined name)) /\
  push P o name kvals st = (st, Err ExcUnknownCacheKey).
Proof. intros H. unfold get, _unpack, all, search, push. rewrite H. repeat split. Qed.

(** For a registered name whose collection key is missing or empty, [get] returns [False], [all] returns [{}] and [search] raises the cache-missing exception; the store is unchanged. *)
Theorem absent_data P o name d q st :
  lookup_def o name = Some d -> bytes_truthy (st !! name) = false ->
  get P o name st = (st, Ok (PBool false)) /\
  all P o name st = (st, Ok (PDict [])) /\
  search P o name q st = (st, Err (ExcCacheMissing name)).
Proof.
  intros Hd Hb.
  assert (Ha : all P o name st = (st, Ok (PDict []))).
  { unfold all. rewrite Hd. unfold mbind, redis_get. cbn.
    destruct (st !! name) as [[|x xs]|]; [reflexivity|discriminate|reflexivity]. }
  split; [|split; [exact Ha|]].
  - unfold get. rewrite Hd. assert (Hu : _unpack P o name st = (st, Ok (PBool false))).
    { unfold _unpack. rewrite Hd. unfold mbind, redis_get. cbn.
      destruct (st !! name) as [[|x xs]|]; [reflexivity|discriminate|reflexivity]. }
    rewrite (mbind_step _ _ _ _ _ Hu). reflexivity.
  - unfold search. rewrite Hd. rewrite (mbind_step _ _ _ _ _ Ha). reflexivity.
Qed.

Lemma existsb_key (acc : list CacheDefinition) (k : string) :
  existsb (fun d => String.eqb (_key d) k) acc = true <-> In k (map _key acc).
Proof.
  rewrite existsb_exists, in_map_iff. split.
  - intros (d & Hd & E). apply String.eqb_eq in E. exists d. split; assumption.
  - intros (d & E & Hd). exists d. split; [exact Hd|]. apply String.eqb_eq, E.
Qed.

Lemma init_defs_nodup (args acc : list CacheDefinition) :
  NoDup (map _key (acc ++ args)) -> init_defs args acc = Ok (acc ++ args).
Proof.
  revert acc. induction args as [|arg r IH]; intros acc H; cbn.
  - rewrite app_nil_r. reflexivity.
  - destruct (existsb _ acc) eqn:E.
    + apply existsb_key in E. rewrite map_app in H. apply NoDup_app in H as (_ & Hdis & _).
      exfalso. apply (Hdis (_key arg)); [apply list_elem_of_In, E|]. cbn. left.
    + rewrite IH; [rewrite <- app_assoc; reflexivity|]. rewrite <- app_assoc. exact H.
Qed.

Lemma init_defs_dup (args acc : list CacheDefinition) :
  NoDup (map _key acc) -> ~ NoDup (map _key (acc ++ args)) -> init_defs args acc = Err ExcDuplicateKey.
Proof.
  revert acc. induction args as [|arg r IH]; intros acc Hacc H; cbn.
  - rewrite app_nil_r in H. contradiction.
  - destruct (existsb _ acc) eqn:E; [reflexivity|].
    apply IH.
    + rewrite map_app. apply NoDup_app. split; [exact Hacc|]. split; [|apply NoDup_singleton].
      intros x Hx Hy. apply list_elem_of_singleton in Hy. subst x.
      apply list_elem_of_In, existsb_key in Hx. congruence.
    + rewrite <- app_assoc. exact H.
Qed.

Lemma find_key_nodup (l : list CacheDefinition) (d : CacheDefinition) :
  NoDup (map _key l) -> In d l -> find (fun d' => String.eqb (_key d') (_key d)) l = Some d.
Proof.
  induction l as [|d0 l IH]; intros Hnd Hin; [destruct Hin|].
  cbn in Hnd. apply NoDup_cons in Hnd as [Hn Hnd]. cbn.
  destruct (String.eqb (_key d0) (_key d)) eqn:E.
  - apply String.eqb_eq in E. destruct Hin as [->|Hin]; [reflexivity|].
    exfalso. apply Hn. rewrite E. apply list_elem_of_In, in_map, Hin.
  - destruct Hin as [->|Hin]; [rewrite String.eqb_refl in E; discriminate|]. apply IH; assumption.
Qed.

(** [CacheORM.__init__] with pairwise distinct definition keys succeeds and keeps the definitions in order, uncompressed. *)
Theorem init_distinct_keys (args : list CacheDefinition) :
  NoDup (map _key args) -> CacheORM_init args = Ok (mkCacheORM args false).
Proof. intros H. unfold CacheORM_init. rewrite init_defs_nodup by exact H. reflexivity. Qed.

(** [CacheORM.__init__] raises the duplicate-key exception as soon as two definitions share a key. *)
Theorem init_duplicate_key (args : list CacheDefinition) :
  ~ NoDup (map _key args) -> CacheORM_init args = Err ExcDuplicateKey.
Proof. intros H. unfold CacheORM_init. rewrite init_defs_dup; [reflexivity|constructor|exact H]. Qed.

(** After a successful [CacheORM.__init__], every given definition is found under its own key. *)
Theorem init_lookup (args : list CacheDefinition) (o : CacheORM) (d : CacheDefinition) :
  CacheORM_init args = Ok o -> In d args -> lookup_def o (_key d) = Some d.
Proof.
  intros H Hin. unfold CacheORM_init in H.
  destruct (bool_decide (NoDup (map _key args))) eqn:E.
  - apply bool_decide_eq_true in E. rewrite init_defs_nodup in H by exact E.
    injection H as <-. apply find_key_nodup; assumption.
  - apply bool_decide_eq_false in E. rewrite init_defs_dup in H by (constructor || exact E). discriminate.
Qed.

Lemma iter_truthy_nonempty (c : pyval) (items : list pyval) :
  truthy c = true -> py_iter c = Ok items -> items <> [].
Proof.
  destruct c; cbn; try discriminate; intros Ht Hi; injection Hi as <-; intros E;
    try (apply map_eq_nil in E); subst; discriminate Ht.
Qed.

Lemma create_scan_enumerate (items : list pyval) (ri : list (pyval * pyval)) :
  items <> [] -> create_scan (enumerate items) ri = Err AttributeError.
Proof. destruct items as [|x r]; [congruence|]. intros _. reflexivity. Qed.

Lemma create_outcome P di st :
  create P di st = (st, Ok false) \/ exists e, create P di st = (st, Err e).
Proof.
  unfold create, mbind, redis_get, ret, lift, raise. cbn -[deserialize_dict py_iter create_scan].
  destruct (bytes_truthy (st !! index_key di)); [left; reflexivity|].
  destruct (st !! di_cache_key di) as [[|x xs]|]; try (left; reflexivity).
  destruct (deserialize_dict P (x :: xs) false) as [c|e]; [|right; eauto].
  destruct (truthy c) eqn:Ht; cbn -[py_iter create_scan]; [|left; reflexivity].
  destruct (py_iter c) as [items|e] eqn:Hi; [|right; eauto].
  rewrite create_scan_enumerate by exact (iter_truthy_nonempty c items Ht Hi). right; eauto.
Qed.

(** [DefinitionIndex.create] never writes to the store and never returns [True]: it returns [False] or raises. *)
Theorem create_never_indexes P di st :
  create P di st = (st, Ok false) \/ exists e, create P di st = (st, Err e).
Proof. exact (create_outcome P di st). Qed.

Lemma create_preserves_other P di k : index_key di <> k -> preserves k (create P di).
Proof. intros H. unfold create. pres. Qed.

Lemma update_preserves_other P di v k : index_key di <> k -> preserves k (update P di v).
Proof. intros H. unfold update. pres. Qed.

Lemma index_key_app (d : CacheDefinition) (name : string) :
  index_key (mkDefinitionIndex d name) = "_idx_" +:+ name.
Proof. reflexivity. Qed.

(** [push] on [name] changes no key of the store other than [name] and [_idx_name]. *)
Theorem push_frame P o name kvals k :
  k <> name -> k <> "_idx_" +:+ name -> preserves k (push P o name kvals).
Proof.
  intros H1 H2. unfold push. destruct (lookup_def o name) as [d|]; [|apply preserves_raise].
  assert (Hn : name <> k) by congruence.
  assert (Hi : index_key (mkDefinitionIndex d name) <> k) by (rewrite index_key_app; congruence).
  unfold _unpack. pres.
  all: first [ apply has_index_preserves | apply create_preserves_other; exact Hi
             | apply update_preserves_other; exact Hi | pres ].
Qed.

(** When the record is built and the collection serialised, [push] has written the new collection under [name] whatever the index step does afterwards (also when it then raises). *)
Theorem push_writes_collection_first P o name d kvals st cs app cs' blob :
  lookup_def o name = Some d ->
  _unpack P o name st = (st, Ok cs) ->
  push_fields (cd_repr d) kvals (_dict d) = Ok app ->
  py_append (if truthy cs then cs else PList []) (PDict app) = Ok cs' ->
  serialize_dict P cs' false = Ok blob ->
  (push P o name kvals st).1 !! name = Some blob.
Proof.
  intros Hd Hu Hf Ha Hs. unfold push. rewrite Hd. rewrite (mbind_step _ _ _ _ _ Hu).
  rewrite (mbind_step (lift (push_fields (cd_repr d) kvals (_dict d))) _ st st app)
    by (unfold lift; rewrite Hf; reflexivity).
  rewrite (mbind_step (lift (py_append _ (PDict app))) _ st st cs')
    by (unfold lift; rewrite Ha; reflexivity).
  rewrite (mbind_step (lift (serialize_dict P cs' false)) _ st st blob)
    by (unfold lift; rewrite Hs; reflexivity).
  rewrite (mbind_step (redis_set name blob) _ st (<[name := blob]> st) tt) by reflexivity.
  rewrite (push_tail_preserves P d name cs' (<[name := blob]> st)). apply lookup_insert_eq.
Qed.

(** A [push] that returns normally returns [True]; an index already existed before the call, and the result is that of [update] applied to the whole new collection in the store holding it. *)
Theorem push_success_path P o name d kvals st st' b :
  lookup_def o name = Some d -> push P o name kvals st = (st', Ok b) ->
  b = true /\ bytes_truthy (st !! ("_idx_" +:+ name)) = true /\
  exists cs app cs' blob,
    _unpack P o name st = (st, Ok cs) /\
    push_fields (cd_repr d) kvals (_dict d) = Ok app /\
    py_append (if truthy cs then cs else PList []) (PDict app) = Ok cs' /\
    serialize_dict P cs' false = Ok blob /\
    update P (mkDefinitionIndex d name) cs' (<[name := blob]> st) = (st', Ok true).
Proof.
  intros Hd H. unfold push in H. rewrite Hd in H.
  apply mbind_ok in H as (st1 & cs & Hu & H).
  pose proof (unpack_state P o name st) as Hs. rewrite Hu in Hs. cbn in Hs. subst st1.
  apply mbind_ok in H as (st2 & app & Hf & H). injection Hf as <- Hf.
  apply mbind_ok in H as (st3 & cs' & Ha & H). injection Ha as <- Ha.
  apply mbind_ok in H as (st4 & blob & Hb & H). injection Hb as <- Hb.
  apply mbind_ok in H as (st5 & [] & Hw & H). injection Hw as <-.
  apply mbind_ok in H as (st6 & hi & Hh & H). injection Hh as <- <-.
  assert (Hidx : <[name:=blob]> st !! index_key (mkDefinitionIndex d name)
                 = st !! ("_idx_" +:+ name)).
  { rewrite lookup_insert_ne by (apply not_eq_sym, index_key_ne). reflexivity. }
  rewrite Hidx in H. destruct (bytes_truthy (st !! ("_idx_" +:+ name))); cbn [negb] in H.
  - apply mbind_ok in H as (st7 & hu & Hup & H).
    destruct hu; cbn in H; unfold raise, ret in H; [|discriminate H]. injection H as <- <-.
    split; [reflexivity|]. split; [reflexivity|]. exists cs, app, cs', blob. auto 6.
  - apply mbind_ok in H as (st7 & cr & Hc & H).
    destruct (create_outcome P (mkDefinitionIndex d name) (<[name:=blob]> st))
      as [E | [e E]]; rewrite Hc in E; [|discriminate E].
    injection E as _ E2. subst cr. cbn in H. unfold raise in H. discriminate H.
Qed.

(** [DefinitionIndex.update] raises on a non-list argument and returns [False] when no index is stored, in both cases without writing. *)
Theorem update_early_exits P di st :
  (forall v, (forall l, v <> PList l) -> update P di v st = (st, Err ExcItemsNotList)) /\
  (forall l, bytes_truthy (st !! index_key di) = false -> update P di (PList l) st = (st, Ok false)).
Proof.
  split.
  - intros v Hv. destruct v; try reflexivity. exfalso. exact (Hv l eq_refl).
  - intros l Hb. unfold update, mbind, redis_get. cbn.
    destruct (st !! index_key di) as [[|x xs]|]; [reflexivity|discriminate|reflexivity].
Qed.

(** [DefinitionIndex.update] writes at most the index key, and writes nothing at all unless it returns [True]. *)
Theorem update_writes_only_index P di v st st' r :
  update P di v st = (st', r) ->
  (forall k, k <> index_key di -> st' !! k = st !! k) /\ (r <> Ok true -> st' = st).
Proof.
  intros H. split.
  - intros k Hk. pose proof (update_preserves_other P di v k (not_eq_sym Hk) st) as Hp.
    rewrite H in Hp. exact Hp.
  - intros Hr. revert H. unfold update, mbind, redis_get, lift, ret, raise, redis_set.
    destruct v; cbn -[deserialize_dict serialize_dict update_items]; try congruence.
    destruct (st !! index_key di) as [[|x xs]|]; try congruence.
    destruct (deserialize_dict P (x :: xs) false); try congruence.
    destruct (update_items _ l a); try congruence.
    destruct (serialize_dict P a0 false); congruence.
Qed.

Lemma update_items_app allowed pre post s s' :
  update_items allowed pre s = Ok s' -> update_items allowed (pre ++ post) s = update_items allowed post s'.
Proof.
  revert s. induction pre as [|it pre IH]; intros s H; cbn in *.
  - injection H as <-. reflexivity.
  - destruct (py_keys it) as [ks|e]; cbn in *; [|discriminate].
    destruct (negb _); [discriminate|].
    destruct (update_keys it ks s) as [s1|e]; cbn in *; [|discriminate]. apply IH, H.
Qed.


Lemma dict_set_keys (d : list (pyval * pyval)) (k v : pyval) :
  map fst (dict_set d k v)
  = map fst d ++ (if existsb (fun k' => py_eq k' k) (map fst d) then [] else [k]).
Proof.
  induction d as [|[k' v'] r IH]; [reflexivity|]. cbn.
  destruct (py_eq k' k); cbn; [rewrite app_nil_r; reflexivity|]. rewrite IH. reflexivity.
Qed.

Lemma update_keys_keys (item : pyval) (keys : list pyval) (d : list (pyval * pyval)) (r : pyval) :
  update_keys item keys (PDict d) = Ok r ->
  exists d' ext, r = PDict d' /\ map fst d' = map fst d ++ ext /\ Forall (fun k => In k keys) ext.
Proof.
  revert d. induction keys as [|key ks IH]; intros d H; cbn -[py_getitem py_setitem] in H.
  - injection H as <-. exists d, []. rewrite app_nil_r. auto.
  - assert (Hnext : forall v,
              update_keys item ks (PDict (dict_set d key v)) = Ok r ->
              exists d' ext, r = PDict d' /\ map fst d' = map fst d ++ ext /\
                Forall (fun k => In k (key :: ks)) ext).
    { intros v Hu. destruct (IH _ Hu) as (d' & ext & -> & Hk & Hf).
      exists d', ((if existsb (fun k' => py_eq k' key) (map fst d) then [] else [key]) ++ ext).
      split; [reflexivity|]. split; [rewrite Hk, dict_set_keys, app_assoc; reflexivity|].
      apply Forall_app_2.
      - destruct (existsb _ _); repeat constructor.
      - eapply List.Forall_impl; [|exact Hf]. intros k Hk'. right. exact Hk'. }
    destruct (existsb (fun k => py_eq k key) (map fst d)).
    + destruct (py_getitem (PDict d) key) as [cur|e]; cbn -[py_getitem py_setitem] in H; [|discriminate H].
      destruct (py_getitem item key) as [v|e]; cbn -[py_getitem py_setitem] in H; [|discriminate H].
      destruct (py_append cur v) as [cur'|e]; cbn -[py_getitem py_setitem] in H; [|discriminate H].
      unfold py_setitem in H. destruct (hashable key) eqn:Hh; cbn -[py_getitem] in H; [|discriminate H]. exact (Hnext cur' H).
    + destruct (py_getitem item key) as [v|e]; cbn -[py_getitem py_setitem] in H; [|discriminate H].
      unfold py_setitem in H. destruct (hashable key) eqn:Hh; cbn -[py_getitem] in H; [|discriminate H]. exact (Hnext v H).
Qed.

(** Merging items into an index dict keeps its keys in order and only appends keys that are declared fields. *)
Theorem update_index_keys_grow (allowed items : list pyval) (d : list (pyval * pyval)) (r : pyval) :
  update_items allowed items (PDict d) = Ok r ->
  exists d' ext, r = PDict d' /\ map fst d' = map fst d ++ ext /\
    Forall (fun k => existsb (fun a => py_eq a k) allowed = true) ext.
Proof.
  revert d. induction items as [|it items IH]; intros d H; cbn in H.
  - injection H as <-. exists d, []. rewrite app_nil_r. auto.
  - destruct (py_keys it) as [ks|e]; cbn in H; [|discriminate H].
    destruct (length (filter (fun x => negb (existsb (fun a => py_eq a x) allowed)) ks) =? 0)%nat
      eqn:Hlen; cbn in H; [|discriminate H].
    destruct (update_keys it ks (PDict d)) as [s1|e] eqn:Hu; cbn in H; [|discriminate H].
    destruct (update_keys_keys _ _ _ _ Hu) as (d1 & ext1 & -> & Hk1 & Hf1).
    destruct (IH _ H) as (d' & ext2 & -> & Hk2 & Hf2).
    exists d', (ext1 ++ ext2). split; [reflexivity|]. split; [rewrite Hk2, Hk1, app_assoc; reflexivity|].
    apply Forall_app_2; [|exact Hf2].
    apply Nat.eqb_eq, length_zero_iff_nil in Hlen.
    eapply List.Forall_impl; [|exact Hf1]. intros k Hk.
    apply not_false_iff_true. intros Hn.
    assert (Hin : k ∈ filter (fun x => negb (existsb (fun a => py_eq a x) allowed)) ks).
    { apply list_elem_of_filter. split; [rewrite Hn; exact I|apply list_elem_of_In, Hk]. }
    rewrite Hlen in Hin. inversion Hin.
Qed.

Lemma py_eq_refl (v : pyval) : literal_ok v = true -> py_eq v v = true.
Proof.
  revert v. apply (pyval_ind' (fun v => literal_ok v = true -> py_eq v v = true));
    [ | intros b | intros z | intros f | intros s | intros l HQ | intros l HQ | intros d HQ
      | intros dt ]; cbn; intros Hok.
  - reflexivity.
  - apply Z.eqb_refl.
  - apply Z.eqb_refl.
  - destruct f as [n m e| |]; try discriminate Hok. cbn.
    rewrite eqb_reflx, !Z.eqb_refl. apply orb_true_r.
  - apply bool_decide_eq_true. reflexivity.
  - induction HQ as [|x r Hx _ IH]; [reflexivity|]. cbn in Hok. apply andb_true_iff in Hok as [H1 H2].
    change (py_eq x x && py_eq (PList r) (PList r) = true).
    apply andb_true_iff. split; [apply Hx, H1|apply IH, H2].
  - induction HQ as [|x r Hx _ IH]; [reflexivity|]. cbn in Hok. apply andb_true_iff in Hok as [H1 H2].
    change (py_eq x x && py_eq (PTuple r) (PTuple r) = true).
    apply andb_true_iff. split; [apply Hx, H1|apply IH, H2].
  - apply andb_true_iff in Hok as [Hok _]. rewrite Nat.eqb_refl. cbn.
    apply forallb_forall. intros [k x] Hkx. apply existsb_exists. exists (k, x). split; [exact Hkx|].
    rewrite List.Forall_forall in HQ. destruct (HQ (k, x) Hkx) as [Hk Hx].
    rewrite forallb_forall in Hok. specialize (Hok (k, x) Hkx). cbn in Hok.
    apply andb_true_iff in Hok as [Hok H2]. apply andb_true_iff in Hok as [_ H1].
    cbn in Hk, Hx. rewrite Hk, Hx by assumption. reflexivity.
  - discriminate Hok.
Qed.

Lemma dict_get_distinct (d : list (pyval * pyval)) (k v : pyval) :
  keys_distinct d = true -> Forall (fun kv => py_eq kv.1 kv.1 = true) d ->
  In (k, v) d -> dict_get d k = Some v.
Proof.
  induction d as [|[k0 v0] r IH]; intros Hd Hr Hin; [destruct Hin|].
  cbn in Hd. apply andb_true_iff in Hd as [Hn Hd]. inversion Hr as [|? ? H0 Hr']; subst.
  cbn. destruct Hin as [Heq|Hin].
  - injection Heq as <- <-. cbn in H0. rewrite H0. reflexivity.
  - rewrite forallb_forall in Hn. specialize (Hn (k, v) Hin). cbn in Hn.
    apply negb_true_iff in Hn. rewrite Hn. apply IH; assumption.
Qed.

Lemma rmap_get_items (entries sub : list (pyval * pyval)) :
  Forall (fun kv => hashable kv.1 = true /\ dict_get entries kv.1 = Some kv.2) sub ->
  rmap (fun k => v <- py_getitem (PDict entries) k ;; Ok (k, v)) (map fst sub) = Ok sub.
Proof.
  induction 1 as [|[k v] r [Hh Hg] _ IH]; [reflexivity|]. cbn in *.
  rewrite Hh, Hg. cbn. rewrite IH. reflexivity.
Qed.

(** [get] on a stored non-empty dict of literals returns that dict with its keys and values unchanged. *)
Theorem get_stored_dict P o name d st b entries :
  lookup_def o name = Some d ->
  st !! name = Some b -> b <> [] ->
  deserialize_dict P b (is_compressed o) = Ok (PDict entries) ->
  entries <> [] -> literal_ok (PDict entries) = true ->
  get P o name st = (st, Ok (PDict entries)).
Proof.
  intros Hd Hst Hb Hdes Hne Hok. unfold get. rewrite Hd.
  assert (Hu : _unpack P o name st = (st, Ok (PDict entries))).
  { unfold _unpack. rewrite Hd. unfold mbind, redis_get. rewrite Hst.
    destruct b as [|b0 bs]; [congruence|]. unfold lift. rewrite Hdes. reflexivity. }
  rewrite (mbind_step _ _ _ _ _ Hu).
  assert (Ht : truthy (PDict entries) = true).
  { destruct entries; [congruence|reflexivity]. }
  rewrite Ht. cbn [negb]. unfold mbind, lift, ret. cbn [py_keys].
  cbn in Hok. apply andb_true_iff in Hok as [Hall Hdist].
  rewrite forallb_forall in Hall.
  assert (Hkey : forall kv, In kv entries -> hashable kv.1 = true /\ literal_ok kv.1 = true).
  { intros kv Hkv. specialize (Hall kv Hkv). cbn beta in Hall.
    apply andb_true_iff in Hall as [Hall _]. apply andb_true_iff in Hall. exact Hall. }
  rewrite rmap_get_items; [reflexivity|].
  apply List.Forall_forall. intros [k v] Hkv. split; [apply (Hkey _ Hkv)|].
  apply dict_get_distinct; [exact Hdist| |exact Hkv].
  apply List.Forall_forall. intros kv Hkv'. apply py_eq_refl, (Hkey _ Hkv').
Qed.

Lemma push_fields_unknown def_repr kvals app :
  Forall (fun kv => forall t, field_type def_repr kv.1 = Some t -> isinstance kv.2 t = true) kvals ->
  Exists (fun kv => field_type def_repr kv.1 = None) kvals ->
  exists k, field_type def_repr k = None /\ push_fields def_repr kvals app = Err (ExcUnknownKey k).
Proof.
  intros Hall Hex. revert app. induction Hall as [|[key v] r Hk Hr IH]; intros app;
    [inversion Hex|].
  cbn [push_fields]. unfold field_type in Hk |- *. cbn [fst snd] in Hk.
  destruct (find _ def_repr) as [[k' t]|] eqn:Ef.
  - rewrite (Hk t eq_refl). cbn [negb].
    apply IH. inversion Hex as [? ? Hn|? ? Hr']; subst; [|exact Hr'].
    unfold field_type in Hn. cbn [fst] in Hn. rewrite Ef in Hn. discriminate Hn.
  - intros. exists key. split; [rewrite Ef; reflexivity|reflexivity].
Qed.


(** [Column.__init__] rejects (assertion error) every column type containing an opening parenthesis, such as [varchar(255)], since the stripped prefix is overwritten before the check. *)
Theorem column_paren_type_rejected py_lower py_upper column_name column_type is_null
    auto_increment default :
  (forall s, In 40 s -> In 40 (py_lower s)) ->
  In 40 column_type ->
  Column_init py_lower py_upper column_name column_type is_null auto_increment default = None.
Proof.
  intros Hl Hin. unfold Column_init.
  destruct (existsb _ allowed_types) eqn:E; [|reflexivity].
  apply existsb_exists in E as (a & Ha & Heq).
  apply bool_decide_eq_true in Heq. subst a.
  pose proof (Hl _ Hin) as H40.
  revert Ha H40. generalize (py_lower column_type). intros l Ha Hl40.
  cbn in Ha. repeat destruct Ha as [<-|Ha]; try contradiction Ha;
    cbn in Hl40; repeat destruct Hl40 as [Hc|Hl40]; try discriminate Hc; contradiction.
Qed.

(** ** Instances *)

Lemma init_distinct_keys_witness :
  NoDup (map _key [users; readings; tagged]) /\ CacheORM_init [users; readings; tagged] = Ok orm.
Proof.
  assert (H : NoDup (map _key [users; readings; tagged]))
    by (apply (bool_decide_unpack _); vm_compute; reflexivity).
  split; [exact H|]. exact (init_distinct_keys [users; readings; tagged] H).
Defined.

Lemma init_duplicate_key_witness :
  ~ NoDup (map _key [users; readings; users]) /\
  CacheORM_init [users; readings; users] = Err ExcDuplicateKey.
Proof.
  assert (H : ~ NoDup (map _key [users; readings; users]))
    by (apply (bool_decide_unpack _); vm_compute; reflexivity).
  split; [exact H|]. exact (init_duplicate_key [users; readings; users] H).
Defined.

Lemma init_lookup_witness :
  CacheORM_init [users; readings; tagged] = Ok orm /\ In readings [users; readings; tagged] /\
  lookup_def orm (_key readings) = Some readings.
Proof.
  assert (H1 : CacheORM_init [users; readings; tagged] = Ok orm) by (vm_compute; reflexivity).
  assert (H2 : In readings [users; readings; tagged]) by (right; left; reflexivity).
  split; [exact H1|]. split; [exact H2|].
  exact (init_lookup [users; readings; tagged] orm readings H1 H2).
Defined.

Lemma unregistered_name_witness :
  lookup_def orm "orders" = None /\
  get example_platform orm "orders" ∅ = (∅, Ok (PBool false)) /\
  _unpack example_platform orm "orders" ∅ = (∅, Ok (PBool false)) /\
  all example_platform orm "orders" ∅ = (∅, Err (ExcAllUnknownKey "orders")) /\
  search example_platform orm "orders" [] ∅ = (∅, Err (ExcNotDefined "orders")) /\
  push example_platform orm "orders" rec_a ∅ = (∅, Err ExcUnknownCacheKey).
Proof.
  assert (H : lookup_def orm "orders" = None) by (vm_compute; reflexivity).
  split; [exact H|]. exact (unregistered_name example_platform orm "orders" rec_a [] ∅ H).
Defined.

Lemma absent_data_witness :
  lookup_def orm "users" = Some users /\ bytes_truthy ((with_index "users") !! "users") = false /\
  get example_platform orm "users" (with_index "users") = (with_index "users", Ok (PBool false)) /\
  all example_platform orm "users" (with_index "users") = (with_index "users", Ok (PDict [])) /\
  search example_platform orm "users" rec_a (with_index "users")
    = (with_index "users", Err (ExcCacheMissing "users")).
Proof.
  assert (H1 : lookup_def orm "users" = Some users) by (vm_compute; reflexivity).
  assert (H2 : bytes_truthy ((with_index "users") !! "users") = false) by (vm_compute; reflexivity).
  split; [exact H1|]. split; [exact H2|].
  exact (absent_data example_platform orm "users" users rec_a (with_index "users") H1 H2).
Defined.


Lemma push_frame_witness :
  "users_log" <> "users" /\ "users_log" <> "_idx_" +:+ "users" /\
  preserves "users_log" (push example_platform orm "users" rec_a).
Proof.
  assert (H1 : "users_log" <> "users") by (intros H; vm_compute in H; discriminate H).
  assert (H2 : "users_log" <> "_idx_" +:+ "users") by (intros H; vm_compute in H; discriminate H).
  split; [exact H1|]. split; [exact H2|].
  exact (push_frame example_platform orm "users" rec_a "users_log" H1 H2).
Defined.

Lemma push_writes_collection_first_witness :
  push example_platform orm "users" rec_a ∅
    = ((push example_platform orm "users" rec_a ∅).1, Err AttributeError) /\
  (push example_platform orm "users" rec_a ∅).1 !! "users"
    = Some (cps "[{'email': 'a@x.com', 'age': 30}]").
Proof.
  split; [vm_compute; reflexivity|].
  refine (push_writes_collection_first example_platform orm "users" users rec_a ∅
    (PBool false) rec_a_dict (PList [PDict rec_a_dict]) _ _ _ _ _ _);
    vm_compute; reflexivity.
Defined.

Lemma push_success_path_witness :
  lookup_def orm "users" = Some users /\
  push example_platform orm "users" rec_a (with_index "users")
    = ((push example_platform orm "users" rec_a (with_index "users")).1, Ok true) /\
  true = true /\ bytes_truthy (with_index "users" !! ("_idx_" +:+ "users")) = true /\
  exists cs app cs' blob,
    _unpack example_platform orm "users" (with_index "users") = (with_index "users", Ok cs) /\
    push_fields (cd_repr users) rec_a (_dict users) = Ok app /\
    py_append (if truthy cs then cs else PList []) (PDict app) = Ok cs' /\
    serialize_dict example_platform cs' false = Ok blob /\
    update example_platform (mkDefinitionIndex users "users") cs' (<["users" := blob]> (with_index "users"))
      = ((push example_platform orm "users" rec_a (with_index "users")).1, Ok true).
Proof.
  assert (H1 : lookup_def orm "users" = Some users) by (vm_compute; reflexivity).
  assert (H2 : push example_platform orm "users" rec_a (with_index "users")
    = ((push example_platform orm "users" rec_a (with_index "users")).1, Ok true))
    by (vm_compute; reflexivity).
  split; [exact H1|]. split; [exact H2|].
  exact (push_success_path example_platform orm "users" users rec_a (with_index "users") _ true H1 H2).
Defined.

Lemma update_writes_only_index_witness :
  update example_platform (mkDefinitionIndex users "users") (PList [PDict rec_a_dict]) (with_index "users")
    = ((update example_platform (mkDefinitionIndex users "users") (PList [PDict rec_a_dict])
          (with_index "users")).1, Ok true) /\
  (forall k, k <> index_key (mkDefinitionIndex users "users") ->
     (update example_platform (mkDefinitionIndex users "users") (PList [PDict rec_a_dict])
        (with_index "users")).1 !! k = (with_index "users") !! k) /\
  (Ok true <> Ok true ->
     (update example_platform (mkDefinitionIndex users "users") (PList [PDict rec_a_dict])
        (with_index "users")).1 = with_index "users").
Proof.
  assert (H : update example_platform (mkDefinitionIndex users "users") (PList [PDict rec_a_dict])
                (with_index "users")
    = ((update example_platform (mkDefinitionIndex users "users") (PList [PDict rec_a_dict])
          (with_index "users")).1, Ok true)) by (vm_compute; reflexivity).
  split; [exact H|].
  exact (update_writes_only_index example_platform (mkDefinitionIndex users "users")
    (PList [PDict rec_a_dict]) (with_index "users") _ (Ok true) H).
Defined.


Lemma update_index_keys_grow_witness :
  update_items [PStr (cps "email"); PStr (cps "age")] [PDict rec_a_dict] (PDict [])
    = Ok (PDict rec_a_dict) /\
  exists d' ext, PDict rec_a_dict = PDict d' /\ map fst d' = map fst (@nil (pyval * pyval)) ++ ext /\
    Forall (fun k => existsb (fun a => py_eq a k) [PStr (cps "email"); PStr (cps "age")] = true) ext.
Proof.
  assert (H : update_items [PStr (cps "email"); PStr (cps "age")] [PDict rec_a_dict] (PDict [])
    = Ok (PDict rec_a_dict)) by (vm_compute; reflexivity).
  split; [exact H|].
  exact (update_index_keys_grow [PStr (cps "email"); PStr (cps "age")] [PDict rec_a_dict] [] _ H).
Defined.

Lemma get_stored_dict_witness :
  get example_platform orm "users" (<["users" := cps "{'email': 'a@x.com', 'age': 30}"]> ∅)
  = (<["users" := cps "{'email': 'a@x.com', 'age': 30}"]> ∅, Ok (PDict rec_a_dict)).
Proof.
  refine (get_stored_dict example_platform orm "users" users
    (<["users" := cps "{'email': 'a@x.com', 'age': 30}"]> ∅)
    (cps "{'email': 'a@x.com', 'age': 30}") rec_a_dict _ _ _ _ _ _).
  - vm_compute. reflexivity.
  - vm_compute. reflexivity.
  - discriminate.
  - vm_compute. reflexivity.
  - discriminate.
  - vm_compute. reflexivity.
Defined.

Lemma column_paren_type_rejected_witness :
  (forall s, In 40 s -> In 40 (ascii_lower s)) /\ In 40 (cps "varchar(255)") /\
  Column_init ascii_lower ascii_upper (cps "name") (cps "varchar(255)") false false (PBool false) = None.
Proof.
  assert (Hl : forall s, In 40 s -> In 40 (ascii_lower s)).
  { intros s Hs. unfold ascii_lower. exact (in_map (fun c => if (65 <=? c) && (c <=? 90) then c + 32 else c) s 40 Hs). }
  assert (Hin : In 40 (cps "varchar(255)")) by (cbn; tauto).
  split; [exact Hl|]. split; [exact Hin|].
  exact (column_paren_type_rejected ascii_lower ascii_upper (cps "name") (cps "varchar(255)") false false (PBool false) Hl Hin).
Defined.
